(** * Blinding-map resolution, merge and reconciliation

    A shallow embedding of [qms_blinding_map_to_csv_and_merge_v5_1.py]:
    the packet-type classifier, [determine_expected_match], the row
    builders of [flatten_map] and [parse_pc_override_fragments], the merge
    closure [put] of [main], and the reconciliation loop of [main].

    Conventions of the embedding.
    - A Python [str] is a [string]; labels are taken to be ASCII text, so
      [upper], [lower] and [strip] act on the ASCII letters and the ASCII
      white space of [str.isspace].
    - A dynamically typed value (a JSON scalar, a CSV cell, a flag) is a
      [pyval]: [None], a [str] or an [int].
    - A raised exception is the [Raise] branch of [result]; an f-string
      message is kept as the data it is formatted from.
    - A mapping row is a dict with a fixed set of keys (the two builders are
      the only places that create one): it is the record [MappingRow]. The
      comparison rows and the enriched rows have open sets of columns: they
      are [gmap string _]. The dict [mapping] of [main] is a [gmap] keyed by
      the tuple [(node_scope, group, arm)]. *)

From Stdlib Require Import ZArith Ascii String Bool List.
From stdpp Require Import base option countable gmap strings list sorting.


(** ** Python values and exceptions *)

Inductive pyval : Type :=
  | PNone
  | PStr (s : string)
  | PInt (z : Z).

#[global] Instance pyval_eq_dec : EqDecision pyval.
Proof. solve_decision. Defined.

#[global] Instance pyval_countable : Countable pyval.
Proof.
  refine (inj_countable'
    (fun v => match v with
              | PNone => inl ()
              | PStr s => inr (inl s)
              | PInt z => inr (inr z)
              end)
    (fun x => match x with
              | inl _ => PNone
              | inr (inl s) => PStr s
              | inr (inr z) => PInt z
              end) _).
  intros []; reflexivity.
Defined.

(** The key of the merged mapping, [(row["node_scope"], row.get("group", ""),
    row.get("arm", ""))]: the scope and the group are always [str], the arm is
    whatever the authority document holds. *)
Definition map_key : Type := string * string * pyval.

(** The key recorded in [missing_map]: three stripped [str]. *)
Definition comp_key : Type := string * string * string.

Inductive exn : Type :=
  | ValueError (msg : string)
  | ArmError (cause : exn) (context : list (string * pyval))
      (* [ValueError(f"{e} :: job_id=... group=... arm=... A_src=...")] *)
  | ConflictingActive (key : map_key)
      (* [ValueError(f"Conflicting active mappings for {key}")] *)
  | AttributeError (attr : string)
  | MissingMappings (count : nat) (example : list comp_key).
      (* [RuntimeError(f"Missing active blinding mappings for {len(uniq)}
         keys. Example: {uniq[:8]}")] *)

Inductive result (A : Type) : Type :=
  | Ok (a : A)
  | Raise (e : exn).
Arguments Ok {A} a.
Arguments Raise {A} e.

Definition bind {A B} (r : result A) (k : A -> result B) : result B :=
  match r with
  | Ok a => k a
  | Raise e => Raise e
  end.

Notation "'let*' x ':=' r 'in' k" := (bind r (fun x => k))
  (at level 10, x pattern, r at level 100, k at level 200).

Definition is_raise {A} (r : result A) : Prop :=
  match r with Ok _ => False | Raise _ => True end.

(** ** The [str] methods the script uses *)

Definition code (c : ascii) : N := N_of_ascii c.

(** [str.isspace] on an ASCII character: TAB, LF, VT, FF, CR, the four
    separators FS, GS, RS, US, and the space. *)
Definition isspace (c : ascii) : bool :=
  let n := code c in
  ((9 <=? n) && (n <=? 13) || (28 <=? n) && (n <=? 32))%N.

Definition upper_ascii (c : ascii) : ascii :=
  let n := code c in
  if ((97 <=? n) && (n <=? 122))%N then ascii_of_N (n - 32) else c.

Definition lower_ascii (c : ascii) : ascii :=
  let n := code c in
  if ((65 <=? n) && (n <=? 90))%N then ascii_of_N (n + 32) else c.

Fixpoint upper (s : string) : string :=
  match s with
  | "" => ""
  | String c s' => String (upper_ascii c) (upper s')
  end.

Fixpoint lower (s : string) : string :=
  match s with
  | "" => ""
  | String c s' => String (lower_ascii c) (lower s')
  end.

Fixpoint lstrip (s : string) : string :=
  match s with
  | "" => ""
  | String c s' => if isspace c then lstrip s' else s
  end.

Fixpoint rstrip (s : string) : string :=
  match s with
  | "" => ""
  | String c s' =>
      let r := rstrip s' in
      if isspace c && bool_decide (r = "") then "" else String c r
  end.

Definition strip (s : string) : string := rstrip (lstrip s).

Fixpoint startswith (pre s : string) : bool :=
  match pre, s with
  | "", _ => true
  | String _ _, "" => false
  | String a pre', String b s' => bool_decide (a = b) && startswith pre' s'
  end.

(** [s.endswith(suf)]: some tail of [s] is [suf]. *)
Fixpoint endswith (suf s : string) : bool :=
  bool_decide (s = suf) ||
  match s with
  | "" => false
  | String _ s' => endswith suf s'
  end.

(** [needle in s]. *)
Fixpoint contains (needle s : string) : bool :=
  startswith needle s ||
  match s with
  | "" => false
  | String _ s' => contains needle s'
  end.

(** [s[n:]]. *)
Fixpoint drop_chars (n : nat) (s : string) : string :=
  match n, s with
  | O, _ => s
  | S _, "" => ""
  | S n', String _ s' => drop_chars n' s'
  end.

(** A string without white space, as a predicate and as a test. *)
Definition no_space (s : string) : Prop :=
  forall pre c post, s = pre +:+ String c post -> isspace c = false.

Fixpoint no_spaceb (s : string) : bool :=
  match s with
  | "" => true
  | String c s' => negb (isspace c) && no_spaceb s'
  end.

(** ** Truthiness, [x or y], and methods called on a dynamic value *)

Definition truthy (v : pyval) : bool :=
  match v with
  | PNone => false
  | PStr s => negb (bool_decide (s = ""))
  | PInt z => negb (bool_decide (z = 0%Z))
  end.

Definition py_or (v w : pyval) : pyval := if truthy v then v else w.

Definition py_strip (v : pyval) : result string :=
  match v with
  | PStr s => Ok (strip s)
  | _ => Raise (AttributeError "strip")
  end.

Definition py_lower (v : pyval) : result string :=
  match v with
  | PStr s => Ok (lower s)
  | _ => Raise (AttributeError "lower")
  end.

(** [(v or "").strip()] *)
Definition or_empty_strip (v : pyval) : result string :=
  py_strip (py_or v (PStr "")).

(** [d.get(k)] and [d.get(k, dflt)] on a dict of dynamic values. *)
Definition py_get (d : gmap string pyval) (k : string) : pyval :=
  default PNone (d !! k).

Definition py_get_d (d : gmap string pyval) (k : string) (dflt : pyval) : pyval :=
  default dflt (d !! k).

(** ** Utilities *)

Definition norm_group (g : pyval) : result string :=
  let* x := or_empty_strip g in
  if startswith "IIIA_" x then Ok (drop_chars (String.length "IIIA_") x)
  else Ok x.

(** ** Packet-type inference *)

(** [(s or "").upper()] on a [str]: [s or ""] is [s] itself. *)
Definition _u (s : string) : string := upper s.

Definition _looks_tamper (s : string) : bool :=
  let x := _u s in
  contains "WORKING_TAMPER" x || contains "TAMPER" x.

Definition _looks_pc (s : string) : bool :=
  let x := _u s in
  contains "PC_REEXPORT" x
  || (contains "_PC" x && contains "PACKET" x)
  || (contains "PC_" x && contains "PACKET" x).

Definition _a_type (a_src : string) : string :=
  if _looks_tamper a_src then "TAMPER"
  else if _looks_pc a_src then "PC"
  else "BASELINE".

Definition determine_expected_match (A_src q1 q2 : pyval)
  : result (string * string * string) :=
  let* a := or_empty_strip A_src in
  let* s1 := or_empty_strip q1 in
  let* s2 := or_empty_strip q2 in
  if bool_decide (a = "") || bool_decide (s1 = "") || bool_decide (s2 = "")
  then Raise (ValueError "Missing A_src or candidate src")
  else
    let a_kind := _a_type a in
    let c1_t := _looks_tamper s1 in
    let c2_t := _looks_tamper s2 in
    let c1_pc := _looks_pc s1 in
    let c2_pc := _looks_pc s2 in
    if bool_decide (a_kind = "TAMPER") then
      if c1_t && negb c2_t then
        Ok ("QMSv5_01", "QMSv5_02", "A=TAMPER -> match=tamper")
      else if c2_t && negb c1_t then
        Ok ("QMSv5_02", "QMSv5_01", "A=TAMPER -> match=tamper")
      else
        Raise (ValueError "Ambiguous: A is TAMPER but candidates not uniquely tamper")
    else if bool_decide (a_kind = "PC") then
      if c1_pc && negb c2_pc then
        Ok ("QMSv5_01", "QMSv5_02", "A=PC -> match=pc")
      else if c2_pc && negb c1_pc then
        Ok ("QMSv5_02", "QMSv5_01", "A=PC -> match=pc")
      else if c1_t && negb c2_t then
        Ok ("QMSv5_02", "QMSv5_01", "A=PC -> match=non-tamper fallback")
      else if c2_t && negb c1_t then
        Ok ("QMSv5_01", "QMSv5_02", "A=PC -> match=non-tamper fallback")
      else
        Raise (ValueError
          "Ambiguous: A is PC but candidates not uniquely PC or tamper-distinguishable")
    else if c1_t && negb c2_t then
      Ok ("QMSv5_02", "QMSv5_01", "A=BASELINE -> match=non-tamper")
    else if c2_t && negb c1_t then
      Ok ("QMSv5_01", "QMSv5_02", "A=BASELINE -> match=non-tamper")
    else
      Raise (ValueError "Ambiguous: BASELINE arm but neither candidate looks tamper").

(** ** Mapping rows and the two builders *)

Record MappingRow : Type := {
  node_scope : string;
  group : string;
  arm : pyval;
  status : string;
  expected_match_candidate : string;
  expected_mismatch_candidate : string;
  rule : string;
  A_src : pyval;
  QMSv5_01_src : pyval;
  QMSv5_02_src : pyval;
  map_job_id : string;
  map_source_file : string;
  map_source_sha256 : string;
  map_manual_override_flag : option Z   (* the key is absent, or holds 1 *)
}.

#[global] Instance MappingRow_eq_dec : EqDecision MappingRow.
Proof. solve_decision. Defined.

Definition _node_scope_from_job (job_id : string) : string :=
  if bool_decide (job_id = "StageIV_Node02") then "Node02_HVT_A_COMPLETED"
  else if bool_decide (job_id = "StageIV_Node03") then "Node03_HVT_A_COMPLETED"
  else if bool_decide (job_id = "StageIIIA") then "ALL"
  else "ALL".

(** The body of the inner loop of [flatten_map], for one arm dict [a] of a
    job: [Ok] is the row appended to [rows]. [source_file] is
    [source_path.as_posix()] and [src_sha] is [sha256_file(source_path)]. *)
Definition flatten_arm (job_id job_status node_scope source_file src_sha : string)
    (a : gmap string pyval) : result MappingRow :=
  let* group := norm_group (py_get a "group") in
  let arm := py_get a "arm" in
  let* a_status :=
    py_lower (py_or (py_or (py_get a "status") (PStr job_status)) (PStr "active")) in
  if bool_decide (a_status = "pending") then
    Ok {| node_scope := node_scope; group := group; arm := arm;
          status := "pending";
          expected_match_candidate := "";
          expected_mismatch_candidate := "";
          rule := "";
          A_src := py_get_d a "A_src" (PStr "");
          QMSv5_01_src := py_get_d a "QMSv5_01_src" (PStr "");
          QMSv5_02_src := py_get_d a "QMSv5_02_src" (PStr "");
          map_job_id := job_id;
          map_source_file := source_file;
          map_source_sha256 := src_sha;
          map_manual_override_flag := None |}
  else
    let A_src := py_get_d a "A_src" (PStr "") in
    let q1 := py_get_d a "QMSv5_01_src" (PStr "") in
    let q2 := py_get_d a "QMSv5_02_src" (PStr "") in
    match determine_expected_match A_src q1 q2 with
    | Raise e =>
        Raise (ArmError e
          [("job_id", PStr job_id); ("node_scope", PStr node_scope);
           ("group", PStr group); ("arm", arm); ("A_src", A_src);
           ("QMSv5_01_src", q1); ("QMSv5_02_src", q2)])
    | Ok (exp_match, exp_mismatch, rule) =>
        Ok {| node_scope := node_scope; group := group; arm := arm;
              status := "active";
              expected_match_candidate := exp_match;
              expected_mismatch_candidate := exp_mismatch;
              rule := rule;
              A_src := A_src; QMSv5_01_src := q1; QMSv5_02_src := q2;
              map_job_id := job_id;
              map_source_file := source_file;
              map_source_sha256 := src_sha;
              map_manual_override_flag := None |}
    end.

Fixpoint mapM {A B} (f : A -> result B) (l : list A) : result (list B) :=
  match l with
  | [] => Ok []
  | x :: l' => let* y := f x in let* ys := mapM f l' in Ok (y :: ys)
  end.

(** A job of an authority document, after the [isinstance] filters of
    [flatten_map]: [job_id] is [str(job.get("job_id") or "")], [job_status_raw]
    is [job.get("status")], and [arms] holds the arm dicts. *)
Record job : Type := {
  job_id : string;
  job_status_raw : pyval;
  arms : list (gmap string pyval)
}.

Definition flatten_job (source_file src_sha : string) (j : job)
  : result (list MappingRow) :=
  let* job_status := py_lower (py_or (job_status_raw j) (PStr "active")) in
  let node_scope := _node_scope_from_job (job_id j) in
  mapM (flatten_arm (job_id j) job_status node_scope source_file src_sha) (arms j).

Definition flatten_map (jobs : list job) (source_file src_sha : string)
  : result (list MappingRow) :=
  let* rowss := mapM (flatten_job source_file src_sha) jobs in
  Ok (concat rowss).

(** The body of the loop of [parse_pc_override_fragments], for one
    fragment [a]. *)
Definition pc_override_row (source_file src_sha : string) (a : gmap string pyval)
  : result MappingRow :=
  let* group := norm_group (py_get a "group") in
  let arm := py_get a "arm" in
  let A_src := py_get_d a "A_src" (PStr "") in
  let q1 := py_get_d a "QMSv5_01_src" (PStr "") in
  let q2 := py_get_d a "QMSv5_02_src" (PStr "") in
  match determine_expected_match A_src q1 q2 with
  | Raise e =>
      Raise (ArmError e
        [("job_id", PStr "StageIV_Node03_PC_OVERRIDE");
         ("group", PStr group); ("arm", arm); ("A_src", A_src);
         ("QMSv5_01_src", q1); ("QMSv5_02_src", q2)])
  | Ok (exp_match, exp_mismatch, rule) =>
      Ok {| node_scope := "Node03_HVT_A_COMPLETED"; group := group; arm := arm;
            status := "active";
            expected_match_candidate := exp_match;
            expected_mismatch_candidate := exp_mismatch;
            rule := rule;
            A_src := A_src; QMSv5_01_src := q1; QMSv5_02_src := q2;
            map_job_id := "StageIV_Node03_PC_OVERRIDE";
            map_source_file := source_file;
            map_source_sha256 := src_sha;
            map_manual_override_flag := Some 1%Z |}
  end.

(** [frags] is what [extract_json_fragments] returned for the file. *)
Definition parse_pc_override_fragments (frags : list (gmap string pyval))
    (source_file src_sha : string) : result (list MappingRow) :=
  match frags with
  | [] => Raise (ValueError "Could not extract PC override fragments")
  | _ => mapM (pc_override_row source_file src_sha) frags
  end.

(** ** The merge engine: the closure [put] of [main] and its three loops *)

Definition row_key (row : MappingRow) : map_key :=
  (node_scope row, group row, arm row).

(** [put(row, force)]; the dict [mapping] it updates is threaded through. *)
Definition put (mapping : gmap map_key MappingRow) (row : MappingRow) (force : bool)
  : result (gmap map_key MappingRow) :=
  let key := row_key row in
  match mapping !! key with
  | None => Ok (<[key := row]> mapping)
  | Some existing =>
      if force then Ok (<[key := row]> mapping)
      else if bool_decide (status existing = "pending")
              && bool_decide (status row = "active")
      then Ok (<[key := row]> mapping)
      else if bool_decide (status existing = "active")
              && bool_decide (status row = "active")
      then
        if negb (bool_decide (expected_match_candidate existing
                              = expected_match_candidate row))
        then Raise (ConflictingActive key)
        else Ok mapping
      else Ok mapping
  end.

(** [for r in rows: put(r, force)] *)
Fixpoint put_all (mapping : gmap map_key MappingRow) (rows : list MappingRow)
    (force : bool) : result (gmap map_key MappingRow) :=
  match rows with
  | [] => Ok mapping
  | r :: rows' => let* mapping' := put mapping r force in put_all mapping' rows' force
  end.

Definition merge (iiia_rows iv_rows pc_rows : list MappingRow)
  : result (gmap map_key MappingRow) :=
  let* m1 := put_all ∅ iiia_rows false in
  let* m2 := put_all m1 iv_rows false in
  put_all m2 pc_rows true.

(** ** Merge into comparisons: the reconciliation loop of [main] *)

Definition SCRIPT_NAME : string := "qms_blinding_map_to_csv_and_merge_v5_1.py".
Definition SCRIPT_VERSION : string := "5.1.0".

Definition candidate_label_from_compare_folder (compare_folder : string) : string :=
  if endswith "_01" compare_folder then "QMSv5_01"
  else if endswith "_02" compare_folder then "QMSv5_02"
  else "".

(** A row of [csv.DictReader]: a column holds a [str], or [None] when the
    line is short. *)
Definition cell_value (c : option string) : pyval :=
  match c with
  | Some s => PStr s
  | None => PNone
  end.

(** [(r.get(k) or "").strip()] *)
Definition field (r : gmap string (option string)) (k : string) : string :=
  match r !! k with
  | Some (Some s) => strip s
  | _ => strip ""
  end.

(** [mapping.get(key_node) or mapping.get(key_all)]: a row dict is never
    empty, so a row that is found is truthy. *)
Definition lookup_row (mapping : gmap map_key MappingRow) (key_node key_all : map_key)
  : option MappingRow :=
  match mapping !! key_node with
  | Some m => Some m
  | None => mapping !! key_all
  end.

Definition int_of_bool (b : bool) : Z := if b then 1%Z else 0%Z.

(** The dict passed to [merged.update]. *)
Definition blinding_fields (r : gmap string (option string)) (candidate_label : string)
    (m : MappingRow) : list (string * pyval) :=
  let expected_match := expected_match_candidate m in
  let expected_mismatch := expected_mismatch_candidate m in
  let is_expected_match := int_of_bool (bool_decide (candidate_label = expected_match)) in
  let is_expected_mismatch :=
    int_of_bool (bool_decide (candidate_label = expected_mismatch)) in
  let observed_match_via_pass :=
    int_of_bool (bool_decide (r !! "pass_fail" = Some (Some "PASS"))) in
  let classification_correct :=
    int_of_bool (bool_decide (observed_match_via_pass = is_expected_match)) in
  [ ("blinding_map_status", PStr (status m));
    ("expected_match_candidate", PStr expected_match);
    ("expected_mismatch_candidate", PStr expected_mismatch);
    ("is_expected_match_candidate", PInt is_expected_match);
    ("is_expected_mismatch_candidate", PInt is_expected_mismatch);
    ("observed_match_via_pass", PInt observed_match_via_pass);
    ("classification_correct", PInt classification_correct);
    ("blinding_map_rule", PStr (rule m));
    ("blinding_map_source_file", PStr (map_source_file m));
    ("blinding_map_source_sha256", PStr (map_source_sha256 m));
    ("blinding_map_job_id", PStr (map_job_id m));
    ("blinding_map_manual_override_flag", PInt (default 0%Z (map_manual_override_flag m)));
    ("blinding_parser_script", PStr SCRIPT_NAME);
    ("blinding_parser_version", PStr SCRIPT_VERSION) ].

(** [merged = dict(r); merged.update({...})]: the new entries win. *)
Definition enrich (r : gmap string (option string)) (candidate_label : string)
    (m : MappingRow) : gmap string pyval :=
  list_to_map (blinding_fields r candidate_label m) ∪ (cell_value <$> r).

Definition candidate_label_of (r : gmap string (option string)) : string :=
  let candidate_label := field r "candidate_label" in
  if bool_decide (candidate_label = "")
  then candidate_label_from_compare_folder (field r "compare_folder")
  else candidate_label.

(** The three components of [key_node] for a comparison row. *)
Definition comp_key_of (r : gmap string (option string)) : result comp_key :=
  let node := field r "node_id" in
  let* group := norm_group (PStr (field r "group")) in
  let arm := field r "arm" in
  Ok (node, group, arm).

(** One iteration of [for r in comp_rows]: [inl] is the key appended to
    [missing_map], [inr] the row appended to [out_rows]. *)
Definition reconcile_row (mapping : gmap map_key MappingRow)
    (r : gmap string (option string)) : result (comp_key + gmap string pyval) :=
  let* (node, group, arm) := comp_key_of r in
  let candidate_label := candidate_label_of r in
  let key_node : map_key := (node, group, PStr arm) in
  let key_all : map_key := ("ALL", group, PStr arm) in
  match lookup_row mapping key_node key_all with
  | None => Ok (inl (node, group, arm))
  | Some m =>
      if negb (bool_decide (status m = "active")) then Ok (inl (node, group, arm))
      else Ok (inr (enrich r candidate_label m))
  end.

Fixpoint reconcile_loop (mapping : gmap map_key MappingRow)
    (comp_rows : list (gmap string (option string)))
    (out_rows : list (gmap string pyval)) (missing_map : list comp_key)
  : result (list (gmap string pyval) * list comp_key) :=
  match comp_rows with
  | [] => Ok (out_rows, missing_map)
  | r :: rest =>
      let* step := reconcile_row mapping r in
      match step with
      | inl k => reconcile_loop mapping rest out_rows (missing_map ++ [k])
      | inr merged => reconcile_loop mapping rest (out_rows ++ [merged]) missing_map
      end
  end.

(** The order of [sorted] on tuples of three [str]: lexicographic, each
    component compared by code points. *)
Definition comp_key_compare (a b : comp_key) : comparison :=
  match String.compare a.1.1 b.1.1 with
  | Eq =>
      match String.compare a.1.2 b.1.2 with
      | Eq => String.compare a.2 b.2
      | c => c
      end
  | c => c
  end.

Definition comp_key_le (a b : comp_key) : Prop := comp_key_compare a b <> Gt.
Definition comp_key_lt (a b : comp_key) : Prop := comp_key_compare a b = Lt.

#[global] Instance comp_key_le_dec : RelDecision comp_key_le.
Proof. intros a b. unfold comp_key_le. apply _. Defined.

(** [sorted(set(missing_map))] *)
Definition sorted_set (missing_map : list comp_key) : list comp_key :=
  merge_sort comp_key_le (remove_dups missing_map).

(** What this stage of [main] ends with: exit status 2 for an empty
    comparisons file, or the rows handed to [write_csv]. *)
Inductive outcome : Type :=
  | Exit2
  | Reconciled (out_rows : list (gmap string pyval)).

Definition reconcile (mapping : gmap map_key MappingRow)
    (comp_rows : list (gmap string (option string))) : result outcome :=
  match comp_rows with
  | [] => Ok Exit2
  | _ =>
      let* (out_rows, missing_map) := reconcile_loop mapping comp_rows [] [] in
      match missing_map with
      | [] => Ok (Reconciled out_rows)
      | _ =>
          let uniq := sorted_set missing_map in
          Raise (MissingMappings (length uniq) (take 8 uniq))
      end
  end.

(** The list [new_fields] of [main]: the columns added to the comparisons. *)
Definition new_fields : list string :=
  [ "blinding_map_status"; "expected_match_candidate"; "expected_mismatch_candidate";
    "is_expected_match_candidate"; "is_expected_mismatch_candidate";
    "observed_match_via_pass"; "classification_correct";
    "blinding_map_rule";
    "blinding_map_source_file"; "blinding_map_source_sha256"; "blinding_map_job_id";
    "blinding_map_manual_override_flag";
    "blinding_parser_script"; "blinding_parser_version" ].

(** The header of the comparisons file as the extraction script writes it:
    the list [comparisons_fields] of [qms_extract_hvtA_metadata_v5_3_1.py]. *)
Definition comparisons_fields : list string :=
  [ "hv_record_id"; "schema"; "ts_generated_utc"; "node_id"; "group"; "arm";
    "compare_folder"; "candidate_label"; "compare_dir"; "win_group"; "win_arm";
    "win_compare_folder"; "path_mismatch_flag"; "hv_validator_name_raw";
    "hv_validator_name_norm"; "is_architect_operator"; "is_blinded_primary_operator";
    "hv_start_utc"; "hv_end_utc"; "hv_duration_seconds"; "hv_start_source";
    "hv_start_artifact"; "hv_start_artifact_mtime_utc"; "hv_final_artifact";
    "hv_final_type"; "hv_final_sha256"; "hv_final_ripemd160"; "derived_pdf";
    "derived_pdf_sha256"; "derived_pdf_ripemd160"; "compare_summary_sha256";
    "compare_summary_ripemd160"; "missing_global_sha256"; "missing_global_ripemd160";
    "extras_global_sha256"; "extras_global_ripemd160"; "pass_fail"; "summary_found";
    "summary_path"; "summary_ts_utc"; "summary_result"; "source_total_rows_read";
    "windows_total_rows_read"; "source_valid_rows"; "windows_valid_rows";
    "missing_count_summary"; "extras_count_summary"; "distinct_pairs_union";
    "fingerprint_match"; "source_sha256_fingerprint"; "source_ripemd160_fingerprint";
    "windows_sha256_fingerprint"; "windows_ripemd160_fingerprint"; "missing_empty";
    "extras_empty"; "tamper_deletion_detected"; "tamper_addition_detected";
    "tamper_substitution_possible"; "tamper_k"; "esf_equiv_found"; "esf_equiv_path";
    "esf_equiv_result"; "esf_match"; "baseline_esf_rows"; "audit_esf_rows";
    "baseline_distinct_esf"; "audit_distinct_esf"; "baseline_only_count";
    "audit_only_count"; "baseline_esf_packet"; "audit_esf_packet"; "out_diff_ndjson";
    "esf_policy_qms_safe"; "esf_policy_container_identity"; "esf_mapping_rule";
    "swap_candidates_present"; "script_name"; "script_version"; "notes";
    "hv_metadata_relpath"; "hv_metadata_path"; "extractor_script"; "extractor_version" ].

(** ** Vocabulary of the statements *)

(** [L] contains [marker] as a substring, letter case ignored. *)
Definition contains_ci (marker L : string) : Prop :=
  exists pre mid post, L = pre +:+ mid +:+ post /\ upper mid = upper marker.

(** An input of the resolver that is empty once stripped: [None], [""], or
    white space only. *)
Definition blank (v : pyval) : Prop := or_empty_strip v = Ok "".

(** The value of [norm_group] on a [str]. *)
Definition norm_group_str (g : string) : string :=
  let x := strip g in
  if startswith "IIIA_" x then drop_chars (String.length "IIIA_") x else x.

(** The [(node, group, arm)] of a comparison row, and the two keys the loop
    looks up for it. *)
Definition key_of (r : gmap string (option string)) : comp_key :=
  (field r "node_id", norm_group_str (field r "group"), field r "arm").

Definition key_node_of (r : gmap string (option string)) : map_key :=
  (field r "node_id", norm_group_str (field r "group"), PStr (field r "arm")).

Definition key_all_of (r : gmap string (option string)) : map_key :=
  ("ALL", norm_group_str (field r "group"), PStr (field r "arm")).

(** The comparison row [r] resolves to the mapping row [m]: under its own
    node, or, when the mapping has no row for that node, under the wildcard
    scope. *)
Definition resolves_to (mapping : gmap map_key MappingRow)
    (r : gmap string (option string)) (m : MappingRow) : Prop :=
  mapping !! key_node_of r = Some m
  \/ (mapping !! key_node_of r = None /\ mapping !! key_all_of r = Some m).

(** [r] has no active mapping: whatever row it resolves to is not active. *)
Definition unmatched (mapping : gmap map_key MappingRow)
    (r : gmap string (option string)) : Prop :=
  forall m, resolves_to mapping r m -> status m <> "active".

(** [merged] is the comparison row [r] enriched from the mapping row [m]
    for the candidate label [label], column by column: under every name that
    is not an added one it has what [r] has (the cell, or nothing), and
    under the fourteen added names it has the status, the expected
    candidates, the rule and the provenance of [m], the two candidate flags,
    the observed match (the outcome is [PASS]), the correctness flag (the
    observed match goes with the expected match and with nothing else), the
    override flag of [m] or 0, and the name and version of the script. *)
Definition enriched_record (r : gmap string (option string)) (label : string)
    (m : MappingRow) (merged : gmap string pyval) : Prop :=
  (forall k, k ∉ new_fields -> merged !! k = cell_value <$> r !! k)
  /\ merged !! "blinding_map_status" = Some (PStr (status m))
  /\ merged !! "expected_match_candidate" = Some (PStr (expected_match_candidate m))
  /\ merged !! "expected_mismatch_candidate"
     = Some (PStr (expected_mismatch_candidate m))
  /\ merged !! "is_expected_match_candidate"
     = Some (PInt (if decide (label = expected_match_candidate m) then 1 else 0))
  /\ merged !! "is_expected_mismatch_candidate"
     = Some (PInt (if decide (label = expected_mismatch_candidate m) then 1 else 0))
  /\ merged !! "observed_match_via_pass"
     = Some (PInt (if decide (r !! "pass_fail" = Some (Some "PASS")) then 1 else 0))
  /\ merged !! "classification_correct"
     = Some (PInt (if decide (r !! "pass_fail" = Some (Some "PASS")
                              <-> label = expected_match_candidate m)
                   then 1 else 0))
  /\ merged !! "blinding_map_rule" = Some (PStr (rule m))
  /\ merged !! "blinding_map_source_file" = Some (PStr (map_source_file m))
  /\ merged !! "blinding_map_source_sha256" = Some (PStr (map_source_sha256 m))
  /\ merged !! "blinding_map_job_id" = Some (PStr (map_job_id m))
  /\ merged !! "blinding_map_manual_override_flag"
     = Some (PInt (match map_manual_override_flag m with Some f => f | None => 0 end))
  /\ merged !! "blinding_parser_script"
     = Some (PStr "qms_blinding_map_to_csv_and_merge_v5_1.py")
  /\ merged !! "blinding_parser_version" = Some (PStr "5.1.0").

(** ** Sample rows and fragments *)

(** A Node03 positive-control arm as three authority sources may state it:
    pending in the Stage IV map, active in a second map, and as a manual
    override fragment. *)
Definition sample_pending : MappingRow :=
  {| node_scope := "Node03_HVT_A_COMPLETED"; group := "Positive_Controls";
     arm := PStr "PC_01"; status := "pending";
     expected_match_candidate := ""; expected_mismatch_candidate := "";
     rule := ""; A_src := PStr ""; QMSv5_01_src := PStr ""; QMSv5_02_src := PStr "";
     map_job_id := "StageIV_Node03"; map_source_file := "maps/stage_iv.md";
     map_source_sha256 := "aa11"; map_manual_override_flag := None |}.

Definition sample_active : MappingRow :=
  {| node_scope := "Node03_HVT_A_COMPLETED"; group := "Positive_Controls";
     arm := PStr "PC_01"; status := "active";
     expected_match_candidate := "QMSv5_01";
     expected_mismatch_candidate := "QMSv5_02";
     rule := "A=PC -> match=pc";
     A_src := PStr "PC_REEXPORT_A"; QMSv5_01_src := PStr "PC_REEXPORT_Q1";
     QMSv5_02_src := PStr "Q2_WORKING_TAMPER";
     map_job_id := "StageIV_Node03"; map_source_file := "maps/stage_iv.md";
     map_source_sha256 := "aa11"; map_manual_override_flag := None |}.

(** Agrees with [sample_active] on the expected match and on nothing else
    that a second source could state differently. *)
Definition sample_active_variant : MappingRow :=
  {| node_scope := "Node03_HVT_A_COMPLETED"; group := "Positive_Controls";
     arm := PStr "PC_01"; status := "active";
     expected_match_candidate := "QMSv5_01";
     expected_mismatch_candidate := "QMSv5_01";
     rule := "A=PC -> match=non-tamper fallback";
     A_src := PStr "OTHER_A"; QMSv5_01_src := PStr "OTHER_Q1";
     QMSv5_02_src := PStr "OTHER_Q2";
     map_job_id := "StageIIIA"; map_source_file := "maps/stage_iiia.md";
     map_source_sha256 := "bb22"; map_manual_override_flag := None |}.

(** Disagrees with [sample_active] on the expected match. *)
Definition sample_conflicting : MappingRow :=
  {| node_scope := "Node03_HVT_A_COMPLETED"; group := "Positive_Controls";
     arm := PStr "PC_01"; status := "active";
     expected_match_candidate := "QMSv5_02";
     expected_mismatch_candidate := "QMSv5_01";
     rule := "A=TAMPER -> match=tamper";
     A_src := PStr "A_TAMPER"; QMSv5_01_src := PStr "Q1_NORMAL";
     QMSv5_02_src := PStr "Q2_TAMPER";
     map_job_id := "StageIIIA"; map_source_file := "maps/stage_iiia.md";
     map_source_sha256 := "bb22"; map_manual_override_flag := None |}.

Definition sample_fragment : gmap string pyval :=
  {[ "group" := PStr "IIIA_Positive_Controls"; "arm" := PStr "PC_01";
     "A_src" := PStr "A_TAMPER"; "QMSv5_01_src" := PStr "Q1_NORMAL";
     "QMSv5_02_src" := PStr "Q2_TAMPER" ]}.

(** The row that [parse_pc_override_fragments] builds from [sample_fragment],
    read from the file [maps/run029_pc.md] with hash [cc33]. *)
Definition sample_override : MappingRow :=
  {| node_scope := "Node03_HVT_A_COMPLETED"; group := "Positive_Controls";
     arm := PStr "PC_01"; status := "active";
     expected_match_candidate := "QMSv5_02";
     expected_mismatch_candidate := "QMSv5_01";
     rule := "A=TAMPER -> match=tamper";
     A_src := PStr "A_TAMPER"; QMSv5_01_src := PStr "Q1_NORMAL";
     QMSv5_02_src := PStr "Q2_TAMPER";
     map_job_id := "StageIV_Node03_PC_OVERRIDE";
     map_source_file := "maps/run029_pc.md";
     map_source_sha256 := "cc33"; map_manual_override_flag := Some 1%Z |}.

(** The wildcard row for the same group and arm. *)
Definition sample_wildcard : MappingRow :=
  {| node_scope := "ALL"; group := "Positive_Controls";
     arm := PStr "PC_01"; status := "active";
     expected_match_candidate := "QMSv5_01";
     expected_mismatch_candidate := "QMSv5_02";
     rule := "A=PC -> match=pc";
     A_src := PStr "PC_REEXPORT_A"; QMSv5_01_src := PStr "PC_REEXPORT_Q1";
     QMSv5_02_src := PStr "Q2_WORKING_TAMPER";
     map_job_id := "StageIIIA"; map_source_file := "maps/stage_iiia.md";
     map_source_sha256 := "bb22"; map_manual_override_flag := None |}.

(** A comparison row of Node03 for that arm, second candidate. *)
Definition sample_comparison : gmap string (option string) :=
  {[ "hv_record_id" := Some "HV-0042"; "node_id" := Some "Node03_HVT_A_COMPLETED";
     "group" := Some "IIIA_Positive_Controls"; "arm" := Some " PC_01 ";
     "compare_folder" := Some "COMPARE_A_vs_QMSv5_02";
     "pass_fail" := Some "FAIL"; "notes" := None ]}.

(** The same arm compared on Node02, first candidate, with a passing
    outcome. *)
Definition sample_comparison_node02 : gmap string (option string) :=
  {[ "hv_record_id" := Some "HV-0017"; "node_id" := Some "Node02_HVT_A_COMPLETED";
     "group" := Some "Positive_Controls"; "arm" := Some "PC_01";
     "compare_folder" := Some "COMPARE_A_vs_QMSv5_01";
     "pass_fail" := Some "PASS"; "notes" := Some "" ]}.

(** A merged mapping with a Node03 row and a wildcard row for the arm. *)
Definition sample_mapping : gmap map_key MappingRow :=
  {[ row_key sample_active := sample_active;
     row_key sample_wildcard := sample_wildcard ]}.

(** The same, the Node03 row still pending. *)
Definition sample_mapping_pending : gmap map_key MappingRow :=
  {[ row_key sample_pending := sample_pending;
     row_key sample_wildcard := sample_wildcard ]}.

(** A comparison row that already has a column named like an added one. *)
Definition sample_comparison_clash : gmap string (option string) :=
  <["classification_correct" := Some "unknown"]> sample_comparison.

(** Nine comparison rows of nine nodes that no mapping covers. *)
Definition sample_unmapped (node : string) : gmap string (option string) :=
  {[ "node_id" := Some node; "group" := Some "Baseline"; "arm" := Some "ARM_A";
     "compare_folder" := Some "COMPARE_A_vs_QMSv5_01"; "pass_fail" := Some "PASS" ]}.

Definition nine_unmapped : list (gmap string (option string)) :=
  sample_unmapped <$>
    ["Node01"; "Node02"; "Node03"; "Node04"; "Node05";
     "Node06"; "Node07"; "Node08"; "Node09"].

(** A call that returns. *)
Definition is_ok {A} (r : result A) : Prop :=
  match r with Ok _ => True | Raise _ => False end.

(** ** The rest of [main]: from the authority documents to the written table *)

(** The rows handed to the merge: [flatten_map] of the two stage maps and
    [parse_pc_override_fragments] of the override file, then the three loops
    of [put]. A document is given by its jobs, its path and its hash, the
    override file by its fragments, its path and its hash. *)
Definition main_mapping
    (iiia_jobs : list job) (iiia_file iiia_sha : string)
    (iv_jobs : list job) (iv_file iv_sha : string)
    (frags : list (gmap string pyval)) (pc_file pc_sha : string)
  : result (gmap map_key MappingRow) :=
  let* iiia_rows := flatten_map iiia_jobs iiia_file iiia_sha in
  let* iv_rows := flatten_map iv_jobs iv_file iv_sha in
  let* pc_rows := parse_pc_override_fragments frags pc_file pc_sha in
  merge iiia_rows iv_rows pc_rows.

(** [write_csv]: what reaches the [csv.DictWriter], that is the header
    and, for each row, the cells [r.get(k, "")] in the order of
    [fieldnames]. *)
Definition write_csv (rows : list (gmap string pyval)) (fieldnames : list string)
  : list string * list (list pyval) :=
  (fieldnames, (fun r => (fun k => py_get_d r k (PStr "")) <$> fieldnames) <$> rows).

(** The table written to [hvtA_comparisons__WITH_BLINDING.csv]; [orig_fields]
    is [list(comp_rows[0].keys())], the header of the comparisons file. *)
Definition with_blinding_table (mapping : gmap map_key MappingRow)
    (orig_fields : list string) (comp_rows : list (gmap string (option string)))
  : result (option (list string * list (list pyval))) :=
  let* o := reconcile mapping comp_rows in
  match o with
  | Exit2 => Ok None
  | Reconciled out_rows => Ok (Some (write_csv out_rows (orig_fields ++ new_fields)))
  end.

(** ** Vocabulary of the further statements *)

(** The two candidate identifiers, in one order or the other. *)
Definition candidate_pair (expected_match expected_mismatch : string) : Prop :=
  (expected_match = "QMSv5_01" /\ expected_mismatch = "QMSv5_02")
  \/ (expected_match = "QMSv5_02" /\ expected_mismatch = "QMSv5_01").

(** The other candidate identifier. *)
Definition other_candidate (c : string) : string :=
  if bool_decide (c = "QMSv5_01") then "QMSv5_02"
  else if bool_decide (c = "QMSv5_02") then "QMSv5_01"
  else c.

Definition swap_result (r : result (string * string * string))
  : result (string * string * string) :=
  match r with
  | Ok (m, mm, rule) => Ok (other_candidate m, other_candidate mm, rule)
  | Raise e => Raise e
  end.

(** The shape of a mapping row of the data model: a pending placeholder
    without expected values, or an active row with the two candidates. *)
Definition row_ok (row : MappingRow) : Prop :=
  (status row = "pending"
   /\ expected_match_candidate row = "" /\ expected_mismatch_candidate row = ""
   /\ rule row = "")
  \/ (status row = "active"
      /\ candidate_pair (expected_match_candidate row) (expected_mismatch_candidate row)).

(** Every row of the mapping sits under its own key and has that shape. *)
Definition mapping_ok (mapping : gmap map_key MappingRow) : Prop :=
  forall k row, mapping !! k = Some row -> row_key row = k /\ row_ok row.

(** Among [rows], the first one with key [k], and the first active one. *)
Definition first_with_key (k : map_key) (rows : list MappingRow) : option MappingRow :=
  head (filter (fun r => row_key r = k) rows).

Definition first_active_with_key (k : map_key) (rows : list MappingRow)
  : option MappingRow :=
  head (filter (fun r => row_key r = k /\ status r = "active") rows).

(** The row that the loops without force leave under [k]: the first row
    of the key, unless that one is pending and an active row follows. *)
Definition winner (k : map_key) (rows : list MappingRow) : option MappingRow :=
  match first_with_key k rows with
  | None => None
  | Some r0 =>
      if bool_decide (status r0 = "pending")
      then Some (default r0 (first_active_with_key k rows))
      else Some r0
  end.

(** Two active rows of one key that disagree on the expected match. *)
Definition conflicting (r1 r2 : MappingRow) : Prop :=
  row_key r1 = row_key r2 /\ status r1 = "active" /\ status r2 = "active"
  /\ expected_match_candidate r1 <> expected_match_candidate r2.

(** ** Sample documents *)

(** An arm still pending, written in capitals and with labels that no
    rule could resolve; an arm of a baseline reference; an arm whose two
    candidates cannot be told apart. *)
Definition sample_arm_pending : gmap string pyval :=
  {[ "group" := PStr "IIIA_Positive_Controls"; "arm" := PStr "PC_01";
     "status" := PStr "PENDING";
     "A_src" := PStr "TBD"; "QMSv5_01_src" := PStr "TBD"; "QMSv5_02_src" := PNone ]}.

Definition sample_arm_baseline : gmap string pyval :=
  {[ "group" := PStr "Baseline"; "arm" := PStr "ARM_A";
     "A_src" := PStr "BASELINE_A_SRC";
     "QMSv5_01_src" := PStr "QMS_CANDIDATE_WORKING_TAMPER";
     "QMSv5_02_src" := PStr "QMS_CANDIDATE_NORMAL" ]}.

Definition sample_arm_ambiguous : gmap string pyval :=
  {[ "group" := PStr "Baseline"; "arm" := PStr "ARM_B";
     "A_src" := PStr "A_SRC"; "QMSv5_01_src" := PStr "Q1";
     "QMSv5_02_src" := PStr "Q2" ]}.

Definition sample_stage_iv : list job :=
  [ {| job_id := "StageIV_Node02"; job_status_raw := PStr "Active";
       arms := [sample_arm_baseline] |};
    {| job_id := "StageIV_Node03"; job_status_raw := PNone;
       arms := [sample_arm_pending; sample_arm_baseline] |} ].

Definition sample_stage_bad : list job :=
  [ {| job_id := "StageIIIA"; job_status_raw := PNone;
       arms := [sample_arm_baseline; sample_arm_ambiguous] |} ].

(** A row as a document with a padded arm would give it. *)
Definition sample_untrimmed : MappingRow :=
  {| node_scope := "Node03_HVT_A_COMPLETED"; group := "Positive_Controls";
     arm := PStr " PC_01 "; status := "active";
     expected_match_candidate := "QMSv5_01";
     expected_mismatch_candidate := "QMSv5_02";
     rule := "A=PC -> match=pc";
     A_src := PStr "PC_REEXPORT_A"; QMSv5_01_src := PStr "PC_REEXPORT_Q1";
     QMSv5_02_src := PStr "Q2_WORKING_TAMPER";
     map_job_id := "StageIV_Node03"; map_source_file := "maps/stage_iv.md";
     map_source_sha256 := "aa11"; map_manual_override_flag := None |}.

(** The header of the comparisons file of the sample rows. *)
Definition sample_header : list string :=
  ["hv_record_id"; "node_id"; "group"; "arm"; "compare_folder"; "pass_fail"; "notes"].

(** The header of a comparisons file that already has a column named like
    an added one. *)
Definition sample_header_clash : list string :=
  ["hv_record_id"; "node_id"; "group"; "arm"; "compare_folder"; "pass_fail";
   "classification_correct"; "notes"].

(** * Properties *)

(** ** Facts about the [str] methods *)

Section str_facts.

Implicit Types (s t needle : string) (c : ascii).

Lemma str_app_cons c s t : String c s +:+ t = String c (s +:+ t).
Proof. reflexivity. Qed.

Lemma upper_app s t : upper (s +:+ t) = upper s +:+ upper t.
Proof.
  induction s as [|c s IH]; [reflexivity|].
  rewrite str_app_cons. cbn [upper]. by rewrite IH, str_app_cons.
Qed.

(** A split of [upper s] comes from a split of [s]. *)
Lemma upper_eq_app s a b :
  upper s = a +:+ b ->
  exists s1 s2, s = s1 +:+ s2 /\ upper s1 = a /\ upper s2 = b.
Proof.
  revert s. induction a as [|x a IH]; intros s H.
  - exists "", s. auto.
  - destruct s as [|c s]; simpl in H; [discriminate|].
    injection H as Hc Hs. destruct (IH _ Hs) as (s1 & s2 & -> & <- & <-).
    exists (String c s1), s2. simpl. by rewrite Hc.
Qed.

Lemma startswith_spec needle s :
  startswith needle s = true <-> exists t, s = needle +:+ t.
Proof.
  revert s. induction needle as [|a needle IH]; intros s; simpl.
  - destruct s; split; eauto.
  - destruct s as [|b s].
    + split; [discriminate | intros [t Ht]; discriminate].
    + rewrite andb_true_iff, bool_decide_eq_true, IH. split.
      * intros [-> [t ->]]. by exists t.
      * intros [t Ht]. injection Ht as -> ->. eauto.
Qed.

(** [needle in s] holds exactly when [s] splits around [needle]. *)
Lemma contains_spec needle s :
  contains needle s = true <-> exists pre post, s = pre +:+ needle +:+ post.
Proof.
  induction s as [|c s IH].
  - simpl. rewrite orb_false_r, startswith_spec. split.
    + intros [t Ht]. by exists "", t.
    + intros (pre & post & H). destruct pre; simpl in H; [eauto | discriminate].
  - cbn [contains]. rewrite orb_true_iff, startswith_spec, IH. split.
    + intros [[t Ht] | (pre & post & ->)].
      * by exists "", t.
      * by exists (String c pre), post.
    + intros (pre & post & H). destruct pre as [|x pre]; simpl in H.
      * left. eauto.
      * right. injection H as _ ->. eauto.
Qed.

Lemma no_space_tail c s : no_space (String c s) -> no_space s.
Proof. intros H pre x post ->. by apply (H (String c pre) x post). Qed.

Lemma no_space_head c s : no_space (String c s) -> isspace c = false.
Proof. intros H. by apply (H "" c s). Qed.

Lemma startswith_space needle c s :
  needle <> "" -> no_space needle -> isspace c = true ->
  startswith needle (String c s) = false.
Proof.
  intros Hne Hns Hc. destruct needle as [|a needle]; [done|]. simpl.
  apply no_space_head in Hns. rewrite bool_decide_eq_false_2; [done|].
  intros ->. congruence.
Qed.

Lemma contains_empty needle : needle <> "" -> contains needle "" = false.
Proof. by destruct needle. Qed.

Lemma contains_lstrip needle s :
  needle <> "" -> no_space needle ->
  contains needle (lstrip s) = contains needle s.
Proof.
  intros Hne Hns. induction s as [|c s IH]; [done|].
  cbn [lstrip contains]. destruct (isspace c) eqn:Hc; [|done].
  by rewrite IH, startswith_space.
Qed.

Lemma rstrip_cons c s :
  rstrip (String c s) =
  if isspace c && bool_decide (rstrip s = "") then "" else String c (rstrip s).
Proof. reflexivity. Qed.

Lemma startswith_rstrip needle s :
  no_space needle -> startswith needle (rstrip s) = startswith needle s.
Proof.
  revert needle. induction s as [|c s IH]; intros needle Hns; [done|].
  rewrite rstrip_cons. destruct needle as [|a needle]; [by destruct (_ && _)|].
  destruct (isspace c && bool_decide (rstrip s = "")) eqn:E.
  - apply andb_true_iff in E as [Hc _]. symmetry.
    by apply startswith_space.
  - simpl. f_equal. apply IH. by eapply no_space_tail.
Qed.

Lemma contains_rstrip needle s :
  needle <> "" -> no_space needle ->
  contains needle (rstrip s) = contains needle s.
Proof.
  intros Hne Hns. induction s as [|c s IH]; [done|].
  cbn [contains]. rewrite <- IH, <- (startswith_rstrip needle (String c s)) by done.
  rewrite rstrip_cons.
  destruct (isspace c && bool_decide (rstrip s = "")) eqn:E; [|done].
  apply andb_true_iff in E as [_ E]. apply bool_decide_eq_true in E.
  rewrite E. by destruct needle.
Qed.

Lemma contains_strip needle s :
  needle <> "" -> no_space needle ->
  contains needle (strip s) = contains needle s.
Proof.
  intros. unfold strip. by rewrite contains_rstrip, contains_lstrip.
Qed.

Lemma isspace_upper c : isspace (upper_ascii c) = isspace c.
Proof. by destruct c as [[] [] [] [] [] [] [] []]. Qed.

Lemma upper_lstrip s : upper (lstrip s) = lstrip (upper s).
Proof.
  induction s as [|c s IH]; [done|]. simpl. rewrite isspace_upper.
  by destruct (isspace c).
Qed.

Lemma upper_empty s : upper s = "" <-> s = "".
Proof. by destruct s. Qed.

Lemma upper_rstrip s : upper (rstrip s) = rstrip (upper s).
Proof.
  induction s as [|c s IH]; [done|]. cbn [upper]. rewrite !rstrip_cons.
  rewrite isspace_upper, <- IH.
  rewrite (bool_decide_ext _ _ (upper_empty (rstrip s))).
  by destruct (_ && _).
Qed.

Lemma upper_strip s : upper (strip s) = strip (upper s).
Proof. unfold strip. by rewrite upper_rstrip, upper_lstrip. Qed.

Lemma no_spaceb_sound s : no_spaceb s = true -> no_space s.
Proof.
  induction s as [|c s IH]; intros H pre x post E.
  - destruct pre; discriminate.
  - simpl in H. apply andb_true_iff in H as [Hc Hs].
    destruct pre as [|y pre]; simpl in E; injection E as -> ->.
    + by apply negb_true_iff.
    + by eapply IH.
Qed.

Lemma contains_upper_strip needle s :
  needle <> "" -> no_spaceb needle = true ->
  contains needle (_u (strip s)) = contains needle (_u s).
Proof.
  intros Hne Hns. unfold _u. rewrite upper_strip.
  apply contains_strip; [done | by apply no_spaceb_sound].
Qed.

Lemma looks_tamper_strip s : _looks_tamper (strip s) = _looks_tamper s.
Proof. unfold _looks_tamper. by rewrite !contains_upper_strip. Qed.

Lemma looks_pc_strip s : _looks_pc (strip s) = _looks_pc s.
Proof. unfold _looks_pc. by rewrite !contains_upper_strip. Qed.

Lemma a_type_strip s : _a_type (strip s) = _a_type s.
Proof. unfold _a_type. by rewrite looks_tamper_strip, looks_pc_strip. Qed.

End str_facts.

(** ** The packet-kind classifier *)

Section classifier.

Implicit Types (L marker : string).

(** For a marker written in capitals, the test of the code on [_u L]
    is containment with the letter case ignored. *)
Lemma contains_upper_ci marker L :
  upper marker = marker ->
  contains marker (_u L) = true <-> contains_ci marker L.
Proof.
  intros Hm. unfold _u, contains_ci. rewrite contains_spec. split.
  - intros (pre & post & H).
    apply upper_eq_app in H as (s1 & s2 & -> & <- & H).
    apply upper_eq_app in H as (mid & s3 & -> & H & <-).
    exists s1, mid, s3. by rewrite Hm.
  - intros (pre & mid & post & -> & H).
    exists (upper pre), (upper post). by rewrite !upper_app, H, Hm.
Qed.

Lemma working_tamper_is_tamper x :
  contains "WORKING_TAMPER" x = true -> contains "TAMPER" x = true.
Proof.
  rewrite !contains_spec. intros (pre & post & ->).
  exists (pre +:+ "WORKING_"), post.
  induction pre as [|c pre IH]; [reflexivity|].
  rewrite !str_app_cons. by f_equal.
Qed.

Lemma looks_tamper_ci L : _looks_tamper L = true <-> contains_ci "TAMPER" L.
Proof.
  rewrite <- contains_upper_ci by reflexivity. unfold _looks_tamper.
  rewrite orb_true_iff. split; [|auto].
  intros [H|H]; [by apply working_tamper_is_tamper | done].
Qed.

End classifier.

(** C4. The classifier returns, for every label, one of the three kinds;
    a label that contains the marker TAMPER in any letter case is TAMPER
    whatever else it contains; a label with HMAC and without the marker is
    not TAMPER. PC is returned exactly for the labels without the marker
    that carry a positive-control cue, BASELINE exactly for those with
    neither. *)
Theorem classify_total_priority (L : string) :
  (_a_type L = "TAMPER" \/ _a_type L = "PC" \/ _a_type L = "BASELINE")
  /\ (contains_ci "TAMPER" L -> _a_type L = "TAMPER")
  /\ (contains_ci "HMAC" L -> ~ contains_ci "TAMPER" L -> _a_type L <> "TAMPER")
  /\ (_a_type L = "PC" <-> ~ contains_ci "TAMPER" L /\ _looks_pc L = true)
  /\ (_a_type L = "BASELINE" <-> ~ contains_ci "TAMPER" L /\ _looks_pc L = false).
Proof.
  rewrite <- looks_tamper_ci. unfold _a_type.
  destruct (_looks_tamper L), (_looks_pc L); repeat split; try tauto;
    try discriminate; intros; intuition congruence.
Qed.

Lemma classify_total_priority_witness :
  _a_type "QMS_PC_PACKET_Working_Tamper_HMAC" = "TAMPER"
  /\ _a_type "QMS_PACKET_HMAC_SIGNED" <> "TAMPER".
Proof.
  split.
  - apply (classify_total_priority "QMS_PC_PACKET_Working_Tamper_HMAC").
    exists "QMS_PC_PACKET_Working_", "Tamper", "_HMAC". split; reflexivity.
  - apply (classify_total_priority "QMS_PACKET_HMAC_SIGNED").
    + exists "QMS_PACKET_", "HMAC", "_SIGNED". split; reflexivity.
    + rewrite <- looks_tamper_ci. vm_compute. discriminate.
Defined.

(** ** The expected-outcome resolver *)

Section resolver.


Lemma or_empty_strip_str s : or_empty_strip (PStr s) = Ok (strip s).
Proof.
  unfold or_empty_strip, py_or. simpl.
  destruct (decide (s = "")) as [->|Hs].
  - reflexivity.
  - by rewrite bool_decide_eq_false_2.
Qed.

Lemma blank_str s : blank (PStr s) <-> strip s = "".
Proof.
  unfold blank. rewrite or_empty_strip_str. split; [by intros [= ->] | by intros ->].
Qed.

Lemma blank_none : blank PNone.
Proof. reflexivity. Qed.

(** With three non-blank strings the resolver reaches its decision
    table, which reads the kinds of the labels as given. *)
Lemma determine_nonblank (ref c1 c2 : string) :
  strip ref <> "" -> strip c1 <> "" -> strip c2 <> "" ->
  determine_expected_match (PStr ref) (PStr c1) (PStr c2) =
  let c1_t := _looks_tamper c1 in
  let c2_t := _looks_tamper c2 in
  let c1_pc := _looks_pc c1 in
  let c2_pc := _looks_pc c2 in
  if bool_decide (_a_type ref = "TAMPER") then
    if c1_t && negb c2_t then
      Ok ("QMSv5_01", "QMSv5_02", "A=TAMPER -> match=tamper")
    else if c2_t && negb c1_t then
      Ok ("QMSv5_02", "QMSv5_01", "A=TAMPER -> match=tamper")
    else
      Raise (ValueError "Ambiguous: A is TAMPER but candidates not uniquely tamper")
  else if bool_decide (_a_type ref = "PC") then
    if c1_pc && negb c2_pc then
      Ok ("QMSv5_01", "QMSv5_02", "A=PC -> match=pc")
    else if c2_pc && negb c1_pc then
      Ok ("QMSv5_02", "QMSv5_01", "A=PC -> match=pc")
    else if c1_t && negb c2_t then
      Ok ("QMSv5_02", "QMSv5_01", "A=PC -> match=non-tamper fallback")
    else if c2_t && negb c1_t then
      Ok ("QMSv5_01", "QMSv5_02", "A=PC -> match=non-tamper fallback")
    else
      Raise (ValueError
        "Ambiguous: A is PC but candidates not uniquely PC or tamper-distinguishable")
  else if c1_t && negb c2_t then
    Ok ("QMSv5_02", "QMSv5_01", "A=BASELINE -> match=non-tamper")
  else if c2_t && negb c1_t then
    Ok ("QMSv5_01", "QMSv5_02", "A=BASELINE -> match=non-tamper")
  else
    Raise (ValueError "Ambiguous: BASELINE arm but neither candidate looks tamper").
Proof.
  intros Ha H1 H2. unfold determine_expected_match.
  rewrite !or_empty_strip_str. cbn [bind].
  rewrite !bool_decide_eq_false_2 by done. cbn [orb].
  by rewrite a_type_strip, !looks_tamper_strip, !looks_pc_strip.
Qed.

(** A blank input stops the resolver before the decision table. *)
Lemma determine_blank_str (ref c1 c2 : string) :
  strip ref = "" \/ strip c1 = "" \/ strip c2 = "" ->
  determine_expected_match (PStr ref) (PStr c1) (PStr c2)
  = Raise (ValueError "Missing A_src or candidate src").
Proof.
  intros H. unfold determine_expected_match.
  rewrite !or_empty_strip_str. cbn [bind].
  destruct (bool_decide (strip ref = "")) eqn:Ea,
    (bool_decide (strip c1 = "")) eqn:E1,
    (bool_decide (strip c2 = "")) eqn:E2; try reflexivity.
  apply bool_decide_eq_false in Ea, E1, E2. tauto.
Qed.

Lemma determine_blank (A q1 q2 : pyval) :
  blank A \/ blank q1 \/ blank q2 ->
  is_raise (determine_expected_match A q1 q2).
Proof.
  unfold blank, determine_expected_match. intros H.
  destruct (or_empty_strip A) as [a|] eqn:Ea; [|exact I].
  destruct (or_empty_strip q1) as [s1|] eqn:E1; [|exact I].
  destruct (or_empty_strip q2) as [s2|] eqn:E2; [|exact I].
  cbn [bind].
  destruct H as [[= ->] | [[= ->] | [= ->]]];
    repeat case_bool_decide; try exact I; congruence.
Qed.

End resolver.

(** C7. The resolver raises whenever one of its three inputs is blank, and
    whenever the reference is TAMPER while both candidates are TAMPER or
    neither is; no pair is returned in any of these cases. For three
    strings of which one is blank the exception is the one for a missing
    source. *)
Theorem resolver_refuses :
  (forall A q1 q2, blank A \/ blank q1 \/ blank q2 ->
     is_raise (determine_expected_match A q1 q2))
  /\ (forall ref c1 c2, strip ref = "" \/ strip c1 = "" \/ strip c2 = "" ->
        determine_expected_match (PStr ref) (PStr c1) (PStr c2)
        = Raise (ValueError "Missing A_src or candidate src"))
  /\ (forall ref c1 c2, _a_type ref = "TAMPER" ->
        _looks_tamper c1 = _looks_tamper c2 ->
        is_raise (determine_expected_match (PStr ref) (PStr c1) (PStr c2))).
Proof.
  split; [exact determine_blank|]. split; [exact determine_blank_str|].
  intros ref c1 c2 Href Hc.
  destruct (decide (strip ref = "" \/ strip c1 = "" \/ strip c2 = "")) as [Hb|Hn].
  - by rewrite determine_blank_str.
  - rewrite determine_nonblank by tauto. cbn zeta.
    rewrite Href, Hc. cbn [bool_decide decide_rel].
    rewrite bool_decide_eq_true_2 by done.
    by destruct (_looks_tamper c2).
Qed.

Lemma resolver_refuses_witness :
  is_raise (determine_expected_match PNone (PStr "X_TAMPER") (PStr "X_NORMAL"))
  /\ determine_expected_match (PStr "A_SRC") (PStr "   ") (PStr "X_TAMPER")
     = Raise (ValueError "Missing A_src or candidate src")
  /\ is_raise (determine_expected_match (PStr "A_TAMPER")
                 (PStr "Q1_TAMPER") (PStr "Q2_TAMPER"))
  /\ is_raise (determine_expected_match (PStr "A_TAMPER")
                 (PStr "Q1_NORMAL") (PStr "Q2_NORMAL")).
Proof.
  destruct resolver_refuses as (H1 & H2 & H3).
  split; [|split; [|split]].
  - apply H1. left. reflexivity.
  - apply H2. right. left. reflexivity.
  - apply H3; reflexivity.
  - apply H3; reflexivity.
Defined.

(** C2, as the code has it. With a BASELINE reference: for three
    non-blank strings of which exactly one candidate is TAMPER the resolver
    returns the identifier of the other candidate as the expected match and
    the identifier of the TAMPER candidate as the expected mismatch, and the
    two differ; when neither candidate is TAMPER it raises. *)
Theorem resolve_baseline (ref c1 c2 : string) :
  _a_type ref = "BASELINE" ->
  (strip ref <> "" -> strip c1 <> "" -> strip c2 <> "" ->
     (_looks_tamper c1 = true -> _looks_tamper c2 = false ->
        determine_expected_match (PStr ref) (PStr c1) (PStr c2)
        = Ok ("QMSv5_02", "QMSv5_01", "A=BASELINE -> match=non-tamper"))
     /\ (_looks_tamper c1 = false -> _looks_tamper c2 = true ->
           determine_expected_match (PStr ref) (PStr c1) (PStr c2)
           = Ok ("QMSv5_01", "QMSv5_02", "A=BASELINE -> match=non-tamper"))
     /\ (_looks_tamper c1 <> _looks_tamper c2 ->
           exists expected_match expected_mismatch rule,
             determine_expected_match (PStr ref) (PStr c1) (PStr c2)
             = Ok (expected_match, expected_mismatch, rule)
             /\ expected_match <> expected_mismatch))
  /\ (_looks_tamper c1 = false -> _looks_tamper c2 = false ->
        is_raise (determine_expected_match (PStr ref) (PStr c1) (PStr c2))).
Proof.
  intros Href. split.
  - intros Ha H1 H2. rewrite determine_nonblank by done. cbn zeta.
    rewrite Href. cbn [bool_decide decide_rel].
    rewrite !bool_decide_eq_false_2 by discriminate.
    destruct (_looks_tamper c1), (_looks_tamper c2);
      (split; [|split]); try done; intros _; eexists _, _, _;
      (split; [reflexivity | discriminate]).
  - intros Ht1 Ht2.
    destruct (decide (strip ref = "" \/ strip c1 = "" \/ strip c2 = "")) as [Hb|Hn].
    + by rewrite determine_blank_str.
    + rewrite determine_nonblank by tauto. cbn zeta.
      rewrite Href, Ht1, Ht2. cbn [bool_decide decide_rel].
      by rewrite !bool_decide_eq_false_2 by discriminate.
Qed.

Lemma resolve_baseline_witness :
  determine_expected_match (PStr "BASELINE_A_SRC")
    (PStr "QMS_CANDIDATE_WORKING_TAMPER") (PStr "QMS_CANDIDATE_NORMAL")
  = Ok ("QMSv5_02", "QMSv5_01", "A=BASELINE -> match=non-tamper")
  /\ is_raise (determine_expected_match (PStr "BASELINE_A_SRC")
                 (PStr "QMS_CANDIDATE_A") (PStr "QMS_CANDIDATE_B")).
Proof.
  assert (strip "BASELINE_A_SRC" <> "") as Ha by (vm_compute; discriminate).
  assert (strip "QMS_CANDIDATE_WORKING_TAMPER" <> "") as H1
    by (vm_compute; discriminate).
  assert (strip "QMS_CANDIDATE_NORMAL" <> "") as H2 by (vm_compute; discriminate).
  assert (_a_type "BASELINE_A_SRC" = "BASELINE") as Href by (vm_compute; reflexivity).
  assert (_looks_tamper "QMS_CANDIDATE_WORKING_TAMPER" = true) as Ht1
    by (vm_compute; reflexivity).
  assert (_looks_tamper "QMS_CANDIDATE_NORMAL" = false) as Ht2
    by (vm_compute; reflexivity).
  assert (_looks_tamper "QMS_CANDIDATE_A" = false) as Ht3
    by (vm_compute; reflexivity).
  assert (_looks_tamper "QMS_CANDIDATE_B" = false) as Ht4
    by (vm_compute; reflexivity).
  split.
  - exact (proj1 (proj1 (resolve_baseline _ _ _ Href) Ha H1 H2) Ht1 Ht2).
  - exact (proj2 (resolve_baseline _ _ _ Href) Ht3 Ht4).
Defined.

(** C2 as stated fails on a blank reference: the empty label classifies as
    BASELINE and exactly one candidate is TAMPER, yet nothing is returned. *)
Lemma resolve_baseline_blank_counterexample :
  _a_type "" = "BASELINE"
  /\ _looks_tamper "QMS_CANDIDATE_WORKING_TAMPER" = true
  /\ _looks_tamper "QMS_CANDIDATE_NORMAL" = false
  /\ forall out,
       determine_expected_match (PStr "")
         (PStr "QMS_CANDIDATE_WORKING_TAMPER") (PStr "QMS_CANDIDATE_NORMAL")
       <> Ok out.
Proof. repeat split; try reflexivity. intros out. vm_compute. discriminate. Qed.

(** ** The merge engine *)

Section merge_engine.

Implicit Types (mapping : gmap map_key MappingRow) (row existing : MappingRow).

Lemma put_first mapping row force :
  mapping !! row_key row = None ->
  put mapping row force = Ok (<[row_key row := row]> mapping).
Proof. intros H. unfold put. by rewrite H. Qed.

Lemma put_force mapping row :
  put mapping row true = Ok (<[row_key row := row]> mapping).
Proof. unfold put. by destruct (mapping !! row_key row). Qed.

Lemma put_pending_active mapping row existing :
  mapping !! row_key row = Some existing ->
  status existing = "pending" -> status row = "active" ->
  put mapping row false = Ok (<[row_key row := row]> mapping).
Proof. intros H Hp Ha. unfold put. by rewrite H, Hp, Ha. Qed.

Lemma put_active_agree mapping row existing :
  mapping !! row_key row = Some existing ->
  status existing = "active" -> status row = "active" ->
  expected_match_candidate existing = expected_match_candidate row ->
  put mapping row false = Ok mapping.
Proof.
  intros H He Ha Hm. unfold put. rewrite H, He, Ha, Hm. simpl.
  by rewrite bool_decide_eq_true_2.
Qed.

Lemma put_active_conflict mapping row existing :
  mapping !! row_key row = Some existing ->
  status existing = "active" -> status row = "active" ->
  expected_match_candidate existing <> expected_match_candidate row ->
  put mapping row false = Raise (ConflictingActive (row_key row)).
Proof.
  intros H He Ha Hm. unfold put. rewrite H, He, Ha. simpl.
  by rewrite bool_decide_eq_false_2.
Qed.

(** A row that is not active never displaces the row of its key. *)
Lemma put_keeps mapping row existing :
  mapping !! row_key row = Some existing ->
  status row <> "active" ->
  put mapping row false = Ok mapping.
Proof.
  intros H Hn. unfold put. rewrite H.
  rewrite (bool_decide_eq_false_2 (status row = "active")) by done.
  by rewrite !andb_false_r.
Qed.

(** Putting the row that the key already holds changes nothing. *)
Lemma put_same mapping row :
  mapping !! row_key row = Some row ->
  put mapping row false = Ok mapping.
Proof.
  intros H. unfold put. rewrite H.
  destruct (decide (status row = "active")) as [Ha|Hn].
  - rewrite Ha. simpl. by rewrite bool_decide_eq_true_2.
  - rewrite (bool_decide_eq_false_2 (status row = "active")) by done.
    by rewrite !andb_false_r.
Qed.

(** An existing row with any other status is kept as well. *)
Lemma put_inert mapping row existing :
  mapping !! row_key row = Some existing ->
  status existing <> "pending" -> status existing <> "active" ->
  put mapping row false = Ok mapping.
Proof.
  intros H Hp Ha. unfold put. rewrite H.
  rewrite (bool_decide_eq_false_2 (status existing = "pending")) by done.
  by rewrite (bool_decide_eq_false_2 (status existing = "active")).
Qed.

Lemma put_idempotent mapping row mapping' :
  put mapping row false = Ok mapping' ->
  put mapping' row false = Ok mapping'.
Proof.
  intros Hput.
  assert (put (<[row_key row := row]> mapping) row false
          = Ok (<[row_key row := row]> mapping)) as Hnew.
  { apply put_same. by rewrite lookup_insert_eq. }
  destruct (mapping !! row_key row) as [existing|] eqn:H.
  - destruct (decide (status row = "active")) as [Ha|Hna].
    + destruct (decide (status existing = "pending")) as [Hp|Hnp].
      { rewrite (put_pending_active _ _ _ H Hp Ha) in Hput. by injection Hput as <-. }
      destruct (decide (status existing = "active")) as [He|Hne].
      * destruct (decide (expected_match_candidate existing
                          = expected_match_candidate row)) as [Hm|Hm].
        -- rewrite (put_active_agree _ _ _ H He Ha Hm) in Hput.
           injection Hput as <-. by eapply put_active_agree.
        -- by rewrite (put_active_conflict _ _ _ H He Ha Hm) in Hput.
      * rewrite (put_inert _ _ _ H Hnp Hne) in Hput.
        injection Hput as <-. by eapply put_inert.
    + rewrite (put_keeps _ _ _ H Hna) in Hput.
      injection Hput as <-. by eapply put_keeps.
  - rewrite (put_first _ _ _ H) in Hput. by injection Hput as <-.
Qed.

(** The forced loop never raises, and afterwards a key holds either what
    it held before, when no row of the loop has that key, or a row of the
    loop with that key. *)
Lemma put_all_force mapping (rows : list MappingRow) :
  exists mapping',
    put_all mapping rows true = Ok mapping'
    /\ forall k,
         (mapping' !! k = mapping !! k /\ forall r, r ∈ rows -> row_key r <> k)
         \/ (exists r', r' ∈ rows /\ row_key r' = k /\ mapping' !! k = Some r').
Proof.
  revert mapping. induction rows as [|r rows IH]; intros mapping.
  - exists mapping. split; [done|]. intros k. left. split; [done|].
    by intros r ?%elem_of_nil.
  - cbn [put_all]. rewrite put_force. cbn [bind].
    destruct (IH (<[row_key r := r]> mapping)) as (mapping' & -> & Hk).
    exists mapping'. split; [done|]. intros k.
    destruct (Hk k) as [[Heq Hno] | (r' & Hr' & Hkey & Hlook)].
    + destruct (decide (row_key r = k)) as [<- | Hne].
      * right. exists r. rewrite Heq, lookup_insert_eq. split; [left | done].
      * left. rewrite Heq, lookup_insert_ne by done. split; [done|].
        intros r0 [-> | Hr0]%elem_of_cons; auto.
    + right. exists r'. split; [by right | done].
Qed.

Lemma merge_override_last (iiia_rows iv_rows pc_rows : list MappingRow)
    (merged : gmap map_key MappingRow) (r : MappingRow) :
  merge iiia_rows iv_rows pc_rows = Ok merged -> r ∈ pc_rows ->
  exists r', r' ∈ pc_rows /\ row_key r' = row_key r
             /\ merged !! row_key r = Some r'.
Proof.
  unfold merge. intros Hmerge Hr.
  destruct (put_all ∅ iiia_rows false) as [m1|]; [cbn [bind] in Hmerge | done].
  destruct (put_all m1 iv_rows false) as [m2|]; [cbn [bind] in Hmerge | done].
  destruct (put_all_force m2 pc_rows) as (mapping' & Hall & Hk).
  rewrite Hall in Hmerge. injection Hmerge as <-.
  destruct (Hk (row_key r)) as [[_ Hno] | H]; [|done].
  by destruct (Hno r Hr).
Qed.

End merge_engine.

(** C1. A new active row put, without the force flag, under a key that
    holds an active row: when the two agree on [expected_match_candidate]
    the mapping is returned unchanged, when they disagree the put raises the
    conflict for that key. Putting a row a second time returns the mapping of
    the first put, with no error. *)
Theorem put_active_on_active (mapping : gmap map_key MappingRow) (row : MappingRow) :
  status row = "active" ->
  (forall existing,
     mapping !! row_key row = Some existing -> status existing = "active" ->
     expected_match_candidate existing = expected_match_candidate row ->
     put mapping row false = Ok mapping)
  /\ (forall existing,
        mapping !! row_key row = Some existing -> status existing = "active" ->
        expected_match_candidate existing <> expected_match_candidate row ->
        put mapping row false = Raise (ConflictingActive (row_key row)))
  /\ (forall mapping',
        put mapping row false = Ok mapping' ->
        put mapping' row false = Ok mapping').
Proof.
  intros Ha. repeat split.
  - intros existing H He Hm. by eapply put_active_agree.
  - intros existing H He Hm. by eapply put_active_conflict.
  - apply put_idempotent.
Qed.

Lemma put_active_on_active_witness :
  put {[ row_key sample_active := sample_active ]} sample_active_variant false
  = Ok {[ row_key sample_active := sample_active ]}
  /\ put {[ row_key sample_active := sample_active ]} sample_conflicting false
     = Raise (ConflictingActive (row_key sample_conflicting))
  /\ put {[ row_key sample_active := sample_active ]} sample_active false
     = Ok {[ row_key sample_active := sample_active ]}.
Proof.
  split; [|split].
  - apply (put_active_on_active _ sample_active_variant eq_refl) with sample_active;
      reflexivity.
  - apply (put_active_on_active _ sample_conflicting eq_refl) with sample_active;
      [reflexivity | reflexivity | discriminate].
  - apply (put_active_on_active ∅ sample_active eq_refl). reflexivity.
Defined.

(** C9. Between two active rows of one key only [expected_match_candidate]
    is compared: when it agrees the put succeeds and the key keeps the row
    it had, whatever the new row states for the expected mismatch, the rule,
    the source labels and the provenance. *)
Theorem put_compares_expected_match_only
    (mapping : gmap map_key MappingRow) (existing row : MappingRow) :
  mapping !! row_key row = Some existing ->
  status existing = "active" -> status row = "active" ->
  expected_match_candidate existing = expected_match_candidate row ->
  exists mapping',
    put mapping row false = Ok mapping'
    /\ mapping' = mapping
    /\ mapping' !! row_key row = Some existing.
Proof.
  intros H He Ha Hm. exists mapping. split; [|done].
  by eapply put_active_agree.
Qed.

Lemma put_compares_expected_match_only_witness :
  expected_mismatch_candidate sample_active_variant
    <> expected_mismatch_candidate sample_active
  /\ rule sample_active_variant <> rule sample_active
  /\ A_src sample_active_variant <> A_src sample_active
  /\ map_source_sha256 sample_active_variant <> map_source_sha256 sample_active
  /\ exists mapping',
       put {[ row_key sample_active := sample_active ]} sample_active_variant false
       = Ok mapping'
       /\ mapping' = {[ row_key sample_active := sample_active ]}
       /\ mapping' !! row_key sample_active_variant = Some sample_active.
Proof.
  repeat (split; [discriminate|]).
  apply (put_compares_expected_match_only
           {[ row_key sample_active := sample_active ]}
           sample_active sample_active_variant); reflexivity.
Defined.

(** C5. A pending row followed by an active row of the same key, neither
    forced, on a mapping where the key is free or holds a pending row,
    leaves the active row under the key. A row built from a manual-override
    fragment carries the override flag 1, and its forced put replaces
    whatever the key holds; at the end of the three loops of the merge the
    key of every override row holds an override row. *)
Theorem merge_precedence (mapping : gmap map_key MappingRow) :
  (forall pending active,
     row_key pending = row_key active ->
     status pending = "pending" -> status active = "active" ->
     (mapping !! row_key active = None
      \/ exists existing, mapping !! row_key active = Some existing
                          /\ status existing = "pending") ->
     exists mapping1,
       put mapping pending false = Ok mapping1
       /\ put mapping1 active false = Ok (<[row_key active := active]> mapping)
       /\ <[row_key active := active]> mapping !! row_key active = Some active)
  /\ (forall source_file src_sha fragment row,
        pc_override_row source_file src_sha fragment = Ok row ->
        map_manual_override_flag row = Some 1%Z
        /\ put mapping row true = Ok (<[row_key row := row]> mapping)
        /\ <[row_key row := row]> mapping !! row_key row = Some row)
  /\ (forall iiia_rows iv_rows pc_rows merged r,
        merge iiia_rows iv_rows pc_rows = Ok merged -> r ∈ pc_rows ->
        exists r', r' ∈ pc_rows /\ row_key r' = row_key r
                   /\ merged !! row_key r = Some r').
Proof.
  split; [|split; [|apply merge_override_last]].
  - intros pending active Hk Hp Ha [Hnone | (existing & Hex & Hst)].
    + exists (<[row_key active := pending]> mapping). split; [|split].
      * rewrite <- Hk in *. by apply put_first.
      * rewrite (put_pending_active _ active pending); [|by rewrite lookup_insert_eq|done..].
        by rewrite insert_insert_eq.
      * by rewrite lookup_insert_eq.
    + exists mapping. split; [|split].
      * apply put_keeps with existing; [by rewrite Hk | by rewrite Hp].
      * by apply put_pending_active with existing.
      * by rewrite lookup_insert_eq.
  - intros source_file src_sha fragment row Hrow. split; [|split].
    + unfold pc_override_row in Hrow.
      destruct (norm_group _) as [g|]; [cbn [bind] in Hrow | discriminate].
      destruct (determine_expected_match _ _ _) as [[[em emm] rl]|]; [|discriminate].
      by injection Hrow as <-.
    + apply put_force.
    + by rewrite lookup_insert_eq.
Qed.

Lemma merge_precedence_witness :
  (exists mapping1,
     put ∅ sample_pending false = Ok mapping1
     /\ put mapping1 sample_active false
        = Ok (<[row_key sample_active := sample_active]> ∅)
     /\ <[row_key sample_active := sample_active]> (∅ : gmap map_key MappingRow)
          !! row_key sample_active = Some sample_active)
  /\ (map_manual_override_flag sample_override = Some 1%Z
      /\ put {[ row_key sample_active := sample_active ]} sample_override true
         = Ok (<[row_key sample_override := sample_override]>
                 {[ row_key sample_active := sample_active ]})
      /\ <[row_key sample_override := sample_override]>
           ({[ row_key sample_active := sample_active ]} : gmap map_key MappingRow)
           !! row_key sample_override = Some sample_override).
Proof.
  split.
  - apply (proj1 (merge_precedence ∅) sample_pending sample_active);
      [reflexivity | reflexivity | reflexivity |].
    left. reflexivity.
  - apply (proj1 (proj2 (merge_precedence
                           {[ row_key sample_active := sample_active ]}))
             "maps/run029_pc.md" "cc33" sample_fragment sample_override).
    vm_compute. reflexivity.
Defined.

(** ** The order of [sorted] on comparison keys *)

Section key_order.

Implicit Types (a b c : comp_key).

Lemma str_compare_refl (s : string) : String.compare s s = Eq.
Proof.
  induction s as [|x s IH]; [done|]. simpl.
  unfold Ascii.compare. by rewrite N.compare_refl.
Qed.

Lemma str_compare_eq (s t : string) : String.compare s t = Eq <-> s = t.
Proof.
  split; [apply String.compare_eq_iff | intros ->; apply str_compare_refl].
Qed.

Lemma str_compare_lt_le (s t : string) : String.compare s t = Lt -> String.le s t.
Proof. intros H. unfold String.le, String.leb. by rewrite H. Qed.

Lemma str_compare_lt_asym (s t : string) :
  String.compare s t = Lt -> String.compare t s = Gt.
Proof. intros H. by rewrite String.compare_antisym, H. Qed.

Lemma str_compare_lt_trans (s t u : string) :
  String.compare s t = Lt -> String.compare t u = Lt -> String.compare s u = Lt.
Proof.
  intros Hst Htu.
  assert (String.le s u) as Hle.
  { transitivity t; by apply str_compare_lt_le. }
  unfold String.le, String.leb in Hle.
  destruct (String.compare s u) eqn:E; [|done..].
  apply str_compare_eq in E as ->.
  apply str_compare_lt_asym in Hst. congruence.
Qed.

Lemma comp_key_compare_eq a b : comp_key_compare a b = Eq <-> a = b.
Proof.
  destruct a as [[a1 a2] a3], b as [[b1 b2] b3]. unfold comp_key_compare. simpl.
  split.
  - destruct (String.compare a1 b1) eqn:E1; [|done..].
    destruct (String.compare a2 b2) eqn:E2; [|done..].
    intros E3. apply str_compare_eq in E1, E2, E3. by subst.
  - intros [= -> -> ->]. by rewrite !str_compare_refl.
Qed.

Lemma comp_key_compare_antisym a b :
  comp_key_compare a b = CompOpp (comp_key_compare b a).
Proof.
  destruct a as [[a1 a2] a3], b as [[b1 b2] b3]. unfold comp_key_compare. simpl.
  rewrite (String.compare_antisym a1 b1), (String.compare_antisym a2 b2),
    (String.compare_antisym a3 b3).
  by destruct (String.compare b1 a1), (String.compare b2 a2).
Qed.

Lemma comp_key_lt_trans a b c :
  comp_key_lt a b -> comp_key_lt b c -> comp_key_lt a c.
Proof.
  destruct a as [[a1 a2] a3], b as [[b1 b2] b3], c as [[c1 c2] c3].
  unfold comp_key_lt, comp_key_compare. simpl.
  destruct (String.compare a1 b1) eqn:E1; [| |done].
  - apply str_compare_eq in E1 as ->.
    destruct (String.compare b1 c1); [|done..].
    destruct (String.compare a2 b2) eqn:E2; [| |done].
    + apply str_compare_eq in E2 as ->.
      destruct (String.compare b2 c2); [|done..].
      apply str_compare_lt_trans.
    + intros _. destruct (String.compare b2 c2) eqn:E2'; [| |done].
      * apply str_compare_eq in E2' as ->. by rewrite E2.
      * by rewrite (str_compare_lt_trans _ _ _ E2 E2').
  - intros _. destruct (String.compare b1 c1) eqn:E1'; [| |done].
    + apply str_compare_eq in E1' as ->. by rewrite E1.
    + by rewrite (str_compare_lt_trans _ _ _ E1 E1').
Qed.

Lemma comp_key_le_lt_eq a b : comp_key_le a b <-> comp_key_lt a b \/ a = b.
Proof.
  unfold comp_key_le, comp_key_lt. rewrite <- comp_key_compare_eq.
  destruct (comp_key_compare a b); intuition congruence.
Qed.

#[global] Instance comp_key_le_trans : Transitive comp_key_le.
Proof.
  intros a b c. rewrite !comp_key_le_lt_eq.
  intros [Hab | ->] [Hbc | ->]; eauto using comp_key_lt_trans.
Qed.

#[global] Instance comp_key_le_total : Total comp_key_le.
Proof.
  intros a b. unfold comp_key_le. rewrite (comp_key_compare_antisym b a).
  destruct (comp_key_compare a b); simpl; auto.
Qed.

Lemma strictly_sorted (l : list comp_key) :
  StronglySorted comp_key_le l -> NoDup l -> StronglySorted comp_key_lt l.
Proof.
  induction 1 as [|x l Hs IH Hx]; intros Hnd; constructor.
  - apply IH. by apply NoDup_cons in Hnd as [_ ?].
  - apply NoDup_cons in Hnd as [Hnotin _].
    rewrite Forall_forall in Hx |- *. intros y Hy.
    destruct (proj1 (comp_key_le_lt_eq x y) (Hx y Hy)) as [Hlt | Heq]; [done|].
    subst y. by destruct Hnotin.
Qed.

Lemma sorted_set_elem (l : list comp_key) k : k ∈ sorted_set l <-> k ∈ l.
Proof.
  unfold sorted_set. by rewrite merge_sort_Permutation, elem_of_remove_dups.
Qed.

(** [sorted(set(l))] is strictly increasing: sorted, without repeats. *)
Lemma sorted_set_sorted (l : list comp_key) :
  StronglySorted comp_key_lt (sorted_set l).
Proof.
  apply strictly_sorted.
  - apply StronglySorted_merge_sort; apply _.
  - unfold sorted_set. rewrite merge_sort_Permutation. apply NoDup_remove_dups.
Qed.

End key_order.

(** ** The comparison reconciler *)

Section reconciler.

Implicit Types (mapping : gmap map_key MappingRow)
  (r : gmap string (option string)) (m : MappingRow).

Lemma norm_group_PStr (g : string) : norm_group (PStr g) = Ok (norm_group_str g).
Proof.
  unfold norm_group, norm_group_str. rewrite or_empty_strip_str. cbn [bind].
  by destruct (startswith _ _).
Qed.

Lemma comp_key_of_ok r : comp_key_of r = Ok (key_of r).
Proof. unfold comp_key_of. by rewrite norm_group_PStr. Qed.

Lemma lookup_row_resolves mapping r m :
  lookup_row mapping (key_node_of r) (key_all_of r) = Some m <-> resolves_to mapping r m.
Proof.
  unfold lookup_row, resolves_to.
  destruct (mapping !! key_node_of r) as [m'|].
  - split; [by left | by intros [H | [H _]]].
  - split; [by right | by intros [H | [_ H]]].
Qed.

(** One iteration of the loop, read off the lookup. *)
Lemma reconcile_row_eq mapping r :
  reconcile_row mapping r =
  Ok match lookup_row mapping (key_node_of r) (key_all_of r) with
     | None => inl (key_of r)
     | Some m =>
         if bool_decide (status m = "active")
         then inr (enrich r (candidate_label_of r) m)
         else inl (key_of r)
     end.
Proof.
  unfold reconcile_row. rewrite comp_key_of_ok. cbn [bind key_of].
  fold (key_node_of r) (key_all_of r).
  destruct (lookup_row _ _ _) as [m|]; [|done].
  by destruct (bool_decide _).
Qed.

Lemma reconcile_row_matched mapping r m :
  resolves_to mapping r m -> status m = "active" ->
  reconcile_row mapping r = Ok (inr (enrich r (candidate_label_of r) m)).
Proof.
  intros Hres Hact. rewrite reconcile_row_eq.
  apply lookup_row_resolves in Hres. rewrite Hres.
  by rewrite bool_decide_eq_true_2.
Qed.

Lemma reconcile_row_unmatched mapping r :
  unmatched mapping r -> reconcile_row mapping r = Ok (inl (key_of r)).
Proof.
  intros Hun. rewrite reconcile_row_eq.
  destruct (lookup_row _ _ _) as [m|] eqn:E; [|done].
  apply lookup_row_resolves, Hun in E. by rewrite bool_decide_eq_false_2.
Qed.

Lemma reconcile_row_inr mapping r merged :
  reconcile_row mapping r = Ok (inr merged) ->
  exists m, resolves_to mapping r m /\ status m = "active"
            /\ merged = enrich r (candidate_label_of r) m.
Proof.
  rewrite reconcile_row_eq.
  destruct (lookup_row _ _ _) as [m|] eqn:E; [|done].
  apply lookup_row_resolves in E. case_bool_decide; [|done].
  intros [= <-]. eauto.
Qed.

Lemma reconcile_row_inl mapping r k :
  reconcile_row mapping r = Ok (inl k) -> unmatched mapping r /\ k = key_of r.
Proof.
  rewrite reconcile_row_eq. unfold unmatched.
  destruct (lookup_row _ _ _) as [m|] eqn:E.
  - case_bool_decide; [done|]. intros [= <-]. split; [|done].
    intros m' Hm'. apply lookup_row_resolves in Hm'. congruence.
  - intros [= <-]. split; [|done].
    intros m' Hm'. apply lookup_row_resolves in Hm'. congruence.
Qed.

(** No row under the node and none under the wildcard, or only rows that
    are not active: the comparison row is unmatched. *)
Lemma no_active_unmatched mapping r :
  (forall m, mapping !! key_node_of r = Some m -> status m <> "active") ->
  (forall m, mapping !! key_all_of r = Some m -> status m <> "active") ->
  unmatched mapping r.
Proof. intros Hn Ha m [H | [_ H]]; eauto. Qed.

(** The loop never raises; it extends its two accumulators, the second
    one by the keys of the unmatched rows. *)
Lemma reconcile_loop_spec mapping (recs : list (gmap string (option string)))
    (out : list (gmap string pyval)) (miss : list comp_key) :
  exists outs misses,
    reconcile_loop mapping recs out miss = Ok (out ++ outs, miss ++ misses)
    /\ (forall k, k ∈ misses <->
          exists r, r ∈ recs /\ unmatched mapping r /\ key_of r = k).
Proof.
  revert out miss. induction recs as [|r recs IH]; intros out miss.
  - exists [], []. rewrite !app_nil_r. split; [done|].
    intros k. split; [by intros ?%elem_of_nil|].
    by intros (r & ?%elem_of_nil & _).
  - cbn [reconcile_loop].
    destruct (reconcile_row mapping r) as [[k0|merged]|] eqn:E; cbn [bind].
    + apply reconcile_row_inl in E as [Hun ->].
      destruct (IH out (miss ++ [key_of r])) as (outs & misses & -> & Hm).
      exists outs, (key_of r :: misses). rewrite <- app_assoc. split; [done|].
      intros k. rewrite elem_of_cons, Hm. split.
      * intros [-> | (r' & Hr' & ?)]; [exists r | exists r'];
          rewrite elem_of_cons; auto.
      * intros (r' & [-> | Hr']%elem_of_cons & Hun' & <-); eauto.
    + apply reconcile_row_inr in E as (m & Hres & Hact & ->).
      destruct (IH (out ++ [enrich r (candidate_label_of r) m]) miss)
        as (outs & misses & -> & Hm).
      exists (enrich r (candidate_label_of r) m :: outs), misses.
      rewrite <- app_assoc. split; [done|].
      intros k. rewrite Hm. split.
      * intros (r' & Hr' & ?). exists r'. rewrite elem_of_cons. auto.
      * intros (r' & [-> | Hr']%elem_of_cons & Hun' & <-); [|eauto].
        by destruct (Hun' m Hres).
    + rewrite reconcile_row_eq in E. discriminate.
Qed.

(** When every row has an active mapping the loop leaves [missing_map]
    as it was and appends the enrichment of each row, in order. *)
Lemma reconcile_loop_complete mapping (recs : list (gmap string (option string)))
    (out : list (gmap string pyval)) (miss : list comp_key) :
  Forall (fun r => exists m, resolves_to mapping r m /\ status m = "active") recs ->
  exists outs,
    reconcile_loop mapping recs out miss = Ok (out ++ outs, miss)
    /\ Forall2 (fun r merged =>
                  exists m, resolves_to mapping r m /\ status m = "active"
                            /\ merged = enrich r (candidate_label_of r) m)
         recs outs.
Proof.
  intros Hall. revert out miss.
  induction Hall as [|r recs (m & Hres & Hact) _ IH]; intros out miss.
  - exists []. by rewrite app_nil_r.
  - cbn [reconcile_loop]. rewrite (reconcile_row_matched _ _ _ Hres Hact).
    cbn [bind].
    destruct (IH (out ++ [enrich r (candidate_label_of r) m]) miss)
      as (outs & -> & Hf).
    exists (enrich r (candidate_label_of r) m :: outs).
    rewrite <- app_assoc. split; [done|]. constructor; eauto.
Qed.

Lemma blinding_fields_names r (candidate_label : string) m :
  (blinding_fields r candidate_label m).*1 = new_fields.
Proof. reflexivity. Qed.

Lemma enrich_lookup_old r (candidate_label : string) m (k : string) :
  k ∉ new_fields ->
  enrich r candidate_label m !! k = cell_value <$> r !! k.
Proof.
  intros Hk. unfold enrich. rewrite lookup_union_r, lookup_fmap; [done|].
  apply not_elem_of_list_to_map_1. by rewrite blinding_fields_names.
Qed.

Lemma enrich_lookup_new r (candidate_label : string) m (k : string) :
  k ∈ new_fields ->
  enrich r candidate_label m !! k
  = (list_to_map (blinding_fields r candidate_label m) : gmap string pyval) !! k
  /\ is_Some (enrich r candidate_label m !! k).
Proof.
  intros Hk. unfold enrich.
  assert (is_Some ((list_to_map (blinding_fields r candidate_label m)
                      : gmap string pyval) !! k)) as [v Hv].
  { apply not_eq_None_Some. intros Hnone.
    apply not_elem_of_list_to_map in Hnone.
    by rewrite blinding_fields_names in Hnone. }
  rewrite (lookup_union_Some_l _ _ _ _ Hv). by rewrite Hv.
Qed.

Lemma enrich_keeps_columns r (candidate_label : string) m (k : string) :
  is_Some (r !! k) -> is_Some (enrich r candidate_label m !! k).
Proof.
  intros [c Hc]. destruct (decide (k ∈ new_fields)) as [Hin|Hout].
  - by apply enrich_lookup_new.
  - rewrite enrich_lookup_old, Hc by done. by eexists.
Qed.

Lemma new_fields_NoDup : NoDup new_fields.
Proof. apply (bool_decide_unpack _). by vm_compute. Qed.

(** An entry of the dict passed to [merged.update] is found in the
    enriched row. *)
Lemma enrich_field r (candidate_label : string) m (k : string) (v : pyval) :
  (k, v) ∈ blinding_fields r candidate_label m ->
  enrich r candidate_label m !! k = Some v.
Proof.
  intros H. unfold enrich. apply lookup_union_Some_l.
  apply elem_of_list_to_map_1; [|done].
  rewrite blinding_fields_names. apply new_fields_NoDup.
Qed.

Lemma int_of_bool_decide (P : Prop) `{Decision P} :
  int_of_bool (bool_decide P) = if decide P then 1%Z else 0%Z.
Proof. case_bool_decide; by destruct (decide P). Qed.

(** [observed_match_via_pass == is_expected_match] on the two flags says
    that the outcome is [PASS] exactly when the label is the expected
    match. *)
Lemma flags_equal_iff (P Q : Prop) `{Decision P, Decision Q} :
  int_of_bool (bool_decide (int_of_bool (bool_decide P) = int_of_bool (bool_decide Q)))
  = if decide (P <-> Q) then 1%Z else 0%Z.
Proof.
  rewrite int_of_bool_decide.
  destruct (decide (P <-> Q)) as [Hiff | Hiff];
    repeat case_bool_decide; cbn [int_of_bool] in *;
    destruct (decide _) as [He | He]; try done; try tauto.
Qed.

End reconciler.

(** Closes [k ∉ new_fields] for a column name given as a literal. *)
Ltac not_a_new_field :=
  let H := fresh in
  unfold new_fields; intros H;
  repeat (apply elem_of_cons in H as [H | H]; [discriminate|]);
  by apply elem_of_nil in H.

(** Closes [(k, v) ∈ blinding_fields r c m] for a column name given as a
    literal. *)
Ltac find_blinding_field :=
  unfold blinding_fields;
  repeat first [apply list_elem_of_here | apply list_elem_of_further].

(** The row that [merged.update] leaves is the enriched record of the
    comparison row, column by column. *)
Lemma enrich_enriched_record (r : gmap string (option string)) (label : string)
    (m : MappingRow) :
  enriched_record r label m (enrich r label m).
Proof.
  unfold enriched_record.
  split; [intros k Hk; by apply enrich_lookup_old|].
  split; [apply enrich_field; find_blinding_field|].
  split; [apply enrich_field; find_blinding_field|].
  split; [apply enrich_field; find_blinding_field|].
  split; [etrans; [apply enrich_field; find_blinding_field
                  | by rewrite int_of_bool_decide]|].
  split; [etrans; [apply enrich_field; find_blinding_field
                  | by rewrite int_of_bool_decide]|].
  split; [etrans; [apply enrich_field; find_blinding_field
                  | by rewrite int_of_bool_decide]|].
  split; [etrans; [apply enrich_field; find_blinding_field
                  | by rewrite flags_equal_iff]|].
  split; [apply enrich_field; find_blinding_field|].
  split; [apply enrich_field; find_blinding_field|].
  split; [apply enrich_field; find_blinding_field|].
  split; [apply enrich_field; find_blinding_field|].
  split; [|split]; apply enrich_field; find_blinding_field.
Qed.

(** C6. When every comparison row resolves, under its node or through the
    wildcard scope, to an active row of the mapping, the loop ends with
    [missing_map] empty and with one enriched row per comparison row, the
    i-th one being the enrichment of the i-th comparison row from the row it
    resolves to: it keeps what the comparison row has under every name that
    is not an added one, and holds under the fourteen added names the values
    of the mapping row, the flags and the stamp of the script. For a
    comparisons file that is not empty these rows are the outcome. *)
Theorem reconcile_complete (mapping : gmap map_key MappingRow)
    (comp_rows : list (gmap string (option string))) :
  (forall r, r ∈ comp_rows ->
     exists m, resolves_to mapping r m /\ status m = "active") ->
  exists out_rows,
    reconcile_loop mapping comp_rows [] [] = Ok (out_rows, [])
    /\ length out_rows = length comp_rows
    /\ (forall i r, comp_rows !! i = Some r ->
          exists m, resolves_to mapping r m /\ status m = "active"
                    /\ out_rows !! i = Some (enrich r (candidate_label_of r) m))
    /\ (forall i r, comp_rows !! i = Some r ->
          exists m merged,
            resolves_to mapping r m /\ status m = "active"
            /\ out_rows !! i = Some merged
            /\ enriched_record r (candidate_label_of r) m merged
            /\ merged !! "blinding_map_status" = Some (PStr "active")
            /\ (forall k, is_Some (r !! k) -> is_Some (merged !! k)))
    /\ (comp_rows <> [] -> reconcile mapping comp_rows = Ok (Reconciled out_rows)).
Proof.
  intros Hall. apply Forall_forall in Hall.
  destruct (reconcile_loop_complete mapping comp_rows [] [] Hall) as (outs & Hloop & Hf).
  exists outs. split; [exact Hloop|]. split; [|split; [|split]].
  - symmetry. by eapply Forall2_length.
  - intros i r Hi.
    destruct (Forall2_lookup_l _ _ _ _ _ Hf Hi) as (merged & Ho & m & Hres & Hact & ->).
    eauto.
  - intros i r Hi.
    destruct (Forall2_lookup_l _ _ _ _ _ Hf Hi) as (merged & Ho & m & Hres & Hact & ->).
    exists m, (enrich r (candidate_label_of r) m).
    split; [exact Hres|]. split; [exact Hact|]. split; [exact Ho|].
    split; [apply enrich_enriched_record|]. split.
    + rewrite <- Hact. apply enrich_field. find_blinding_field.
    + intros k Hk. by apply enrich_keeps_columns.
  - intros Hne. unfold reconcile. destruct comp_rows as [|r rest]; [done|].
    by rewrite Hloop.
Qed.

Lemma reconcile_complete_witness :
  exists out_rows,
    reconcile sample_mapping [sample_comparison; sample_comparison_node02]
    = Ok (Reconciled out_rows)
    /\ length out_rows = 2
    /\ out_rows !! 1 =
       Some (enrich sample_comparison_node02 "QMSv5_01" sample_wildcard)
    /\ exists merged,
         out_rows !! 1 = Some merged
         /\ merged !! "hv_record_id" = Some (PStr "HV-0017")
         /\ merged !! "notes" = Some (PStr "")
         /\ merged !! "expected_match_candidate" = Some (PStr "QMSv5_01")
         /\ merged !! "is_expected_match_candidate" = Some (PInt 1)
         /\ merged !! "observed_match_via_pass" = Some (PInt 1)
         /\ merged !! "classification_correct" = Some (PInt 1)
         /\ merged !! "blinding_map_job_id" = Some (PStr "StageIIIA")
         /\ merged !! "blinding_map_manual_override_flag" = Some (PInt 0).
Proof.
  destruct (reconcile_complete sample_mapping
              [sample_comparison; sample_comparison_node02])
    as (out_rows & _ & Hlen & Hnth & Hrec & Hrun).
  { intros r Hr. apply elem_of_cons in Hr as [-> | Hr].
    - exists sample_active. split; [left|]; reflexivity.
    - apply list_elem_of_singleton in Hr as ->.
      exists sample_wildcard. split; [right; split|]; reflexivity. }
  assert (forall m, resolves_to sample_mapping sample_comparison_node02 m ->
                    m = sample_wildcard) as Hm.
  { intros m [Hres | [_ Hres]]; vm_compute in Hres; by simplify_eq. }
  exists out_rows. split; [by apply Hrun|]. split; [exact Hlen|]. split.
  - destruct (Hnth 1 sample_comparison_node02 eq_refl) as (m & Hres & _ & ->).
    by rewrite (Hm m Hres).
  - destruct (Hrec 1 sample_comparison_node02 eq_refl)
      as (m & merged & Hres & _ & Ho & Hcols & _).
    rewrite (Hm m Hres) in Hcols. exists merged. split; [exact Ho|].
    destruct Hcols as (Hold & _ & Hem & _ & Hflag & _ & Hobs & Hcc & _ & _ & _
                       & Hjob & Hover & _).
    split; [rewrite Hold; [vm_compute; reflexivity | not_a_new_field]|].
    split; [rewrite Hold; [vm_compute; reflexivity | not_a_new_field]|].
    split; [exact Hem|].
    split; [rewrite Hflag; vm_compute; reflexivity|].
    split; [rewrite Hobs; vm_compute; reflexivity|].
    split; [rewrite Hcc; vm_compute; reflexivity|].
    split; [exact Hjob | exact Hover].
Defined.

(** C3, as the code has it. When some comparison row has no active
    mapping, the reconciliation raises and hands over no rows. The
    exception carries the number of distinct missing keys and the first
    eight of them in increasing order: [uniq] below is strictly increasing
    and holds exactly the keys of the unmatched rows, and it is reported in
    full when it has at most eight keys. *)
Theorem reconcile_fail_closed (mapping : gmap map_key MappingRow)
    (comp_rows : list (gmap string (option string))) :
  (exists r, r ∈ comp_rows /\ unmatched mapping r) ->
  exists uniq,
    reconcile mapping comp_rows = Raise (MissingMappings (length uniq) (take 8 uniq))
    /\ StronglySorted comp_key_lt uniq
    /\ (forall k, k ∈ uniq <->
          exists r, r ∈ comp_rows /\ unmatched mapping r /\ key_of r = k)
    /\ (length uniq <= 8 -> take 8 uniq = uniq).
Proof.
  intros (r0 & Hr0 & Hun0).
  destruct (reconcile_loop_spec mapping comp_rows [] []) as (outs & misses & Hloop & Hm).
  cbn [app] in Hloop.
  assert (key_of r0 ∈ misses) as Hin by (apply Hm; eauto).
  exists (sorted_set misses). split; [|split; [|split]].
  - unfold reconcile. destruct comp_rows as [|r rest]; [by apply elem_of_nil in Hr0|].
    rewrite Hloop. cbn [bind].
    destruct misses as [|k misses]; [by apply elem_of_nil in Hin | done].
  - apply sorted_set_sorted.
  - intros k. by rewrite sorted_set_elem.
  - intros Hle. by apply take_ge.
Qed.

Lemma reconcile_fail_closed_witness :
  exists uniq,
    reconcile sample_mapping_pending [sample_comparison_node02; sample_comparison]
    = Raise (MissingMappings (length uniq) (take 8 uniq))
    /\ key_of sample_comparison ∈ uniq.
Proof.
  assert (unmatched sample_mapping_pending sample_comparison) as Hun.
  { intros m [H | [H _]]; vm_compute in H; by simplify_eq. }
  destruct (reconcile_fail_closed sample_mapping_pending
              [sample_comparison_node02; sample_comparison])
    as (uniq & Hrun & _ & Hmem & _).
  { exists sample_comparison. split; [|exact Hun]. right. left. }
  exists uniq. split; [exact Hrun|].
  apply Hmem. exists sample_comparison. split; [|by split]. right. left.
Defined.

(** C3 as stated fails for more than eight missing keys: of nine rows
    without a mapping the report lists eight keys, and the key of the ninth
    row is not among them. *)
Lemma reconcile_report_counterexample :
  sample_unmapped "Node09" ∈ nine_unmapped
  /\ unmatched ∅ (sample_unmapped "Node09")
  /\ exists count example,
       reconcile ∅ nine_unmapped = Raise (MissingMappings count example)
       /\ count = 9
       /\ length example = 8
       /\ key_of (sample_unmapped "Node09") ∉ example.
Proof.
  split; [|split].
  - unfold nine_unmapped. set_solver.
  - intros m [H | [_ H]]; by rewrite lookup_empty in H.
  - eexists _, _. split; [vm_compute; reflexivity|].
    split; [reflexivity|]. split; [reflexivity|].
    vm_compute. intros H.
    repeat (apply elem_of_cons in H as [H | H]; [discriminate|]).
    by apply elem_of_nil in H.
Qed.

(** Away from the fourteen added names the enrichment is additive: in the
    enriched row of a reconciled comparison row every original column is
    still present, and every original column whose name is not one of the
    fourteen added names holds the value it had; the fourteen added names
    are all present. *)
Lemma enrichment_additive (mapping : gmap map_key MappingRow)
    (r : gmap string (option string)) (merged : gmap string pyval) :
  reconcile_row mapping r = Ok (inr merged) ->
  (forall k, k ∉ new_fields -> merged !! k = cell_value <$> r !! k)
  /\ (forall k, is_Some (r !! k) -> is_Some (merged !! k))
  /\ (forall k, k ∈ new_fields -> is_Some (merged !! k)).
Proof.
  intros (m & _ & _ & ->)%reconcile_row_inr. split; [|split].
  - intros k Hk. by apply enrich_lookup_old.
  - intros k Hk. by apply enrich_keeps_columns.
  - intros k Hk. by apply enrich_lookup_new.
Qed.

Lemma enrichment_additive_witness :
  exists merged,
    reconcile_row sample_mapping sample_comparison = Ok (inr merged)
    /\ merged !! "hv_record_id" = Some (PStr "HV-0042")
    /\ merged !! "arm" = Some (PStr " PC_01 ")
    /\ merged !! "notes" = Some PNone
    /\ is_Some (merged !! "blinding_map_manual_override_flag").
Proof.
  assert (reconcile_row sample_mapping sample_comparison
          = Ok (inr (enrich sample_comparison
                       (candidate_label_of sample_comparison) sample_active))) as Hrow.
  { apply reconcile_row_matched; [left; vm_compute|]; reflexivity. }
  destruct (enrichment_additive _ _ _ Hrow) as (Hold & _ & Hnew).
  eexists. split; [exact Hrow|].
  split; [|split; [|split]].
  - rewrite Hold; [vm_compute; reflexivity | not_a_new_field].
  - rewrite Hold; [vm_compute; reflexivity | not_a_new_field].
  - rewrite Hold; [vm_compute; reflexivity | not_a_new_field].
  - apply Hnew. unfold new_fields. do 11 right. left.
Defined.

(** The extraction script names none of its columns like an added one, so
    the enriched row of a comparison row with columns of that header only,
    restricted to the original names, is the comparison row. *)
Lemma comparisons_fields_fresh (k : string) :
  k ∈ comparisons_fields -> k ∉ new_fields.
Proof.
  revert k. apply Forall_forall, (bool_decide_unpack _). by vm_compute.
Qed.

Lemma enrichment_additive_on_schema (mapping : gmap map_key MappingRow)
    (r : gmap string (option string)) (merged : gmap string pyval) :
  (forall k, is_Some (r !! k) -> k ∈ comparisons_fields) ->
  reconcile_row mapping r = Ok (inr merged) ->
  forall k, is_Some (r !! k) -> merged !! k = cell_value <$> r !! k.
Proof.
  intros Hschema (m & _ & _ & ->)%reconcile_row_inr k Hk.
  by apply enrich_lookup_old, comparisons_fields_fresh, Hschema.
Qed.

(** C8. The enrichment is not additive on a comparisons file that already
    has a column named like an added one. The row [sample_comparison_clash]
    holds "unknown" in its column [classification_correct]; it is
    reconciled, and its enriched row holds 1 under that name. The header of
    the written table then names the column twice, at its original place and
    among the added columns, the line has 1 at both places, and "unknown" is
    nowhere in the line. *)
Theorem enrichment_overwrites_clashing_column :
  sample_comparison_clash !! "classification_correct" = Some (Some "unknown")
  /\ (exists merged,
        reconcile_row sample_mapping sample_comparison_clash = Ok (inr merged)
        /\ merged !! "classification_correct" = Some (PInt 1)
        /\ merged !! "classification_correct"
           <> cell_value <$> sample_comparison_clash !! "classification_correct")
  /\ (exists header line,
        with_blinding_table sample_mapping sample_header_clash
          [sample_comparison_clash] = Ok (Some (header, [line]))
        /\ header !! 6 = Some "classification_correct"
        /\ line !! 6 = Some (PInt 1)
        /\ header !! 14 = Some "classification_correct"
        /\ line !! 14 = Some (PInt 1)
        /\ PStr "unknown" ∉ line).
Proof.
  split; [vm_compute; reflexivity|]. split.
  - exists (enrich sample_comparison_clash
              (candidate_label_of sample_comparison_clash) sample_active).
    split; [|split].
    + apply reconcile_row_matched; [left; vm_compute|]; reflexivity.
    + vm_compute. reflexivity.
    + vm_compute. discriminate.
  - eexists _, _. split; [vm_compute; reflexivity|].
    do 4 (split; [reflexivity|]).
    intros H.
    repeat (apply elem_of_cons in H as [H | H]; [discriminate|]).
    by apply elem_of_nil in H.
Qed.

(** C10. A comparison row whose own [(node, group, arm)] key holds a
    pending row is recorded as unmatched although the wildcard key of its
    group and arm holds an active row: the wildcard row plays no part,
    whatever the rest of the mapping is, and the key of the row ends in
    [missing_map]. *)
Theorem pending_shadows_wildcard (mapping : gmap map_key MappingRow)
    (r : gmap string (option string)) (pending wildcard : MappingRow) :
  mapping !! key_node_of r = Some pending -> status pending = "pending" ->
  mapping !! key_all_of r = Some wildcard -> status wildcard = "active" ->
  reconcile_row mapping r = Ok (inl (key_of r))
  /\ (forall mapping' : gmap map_key MappingRow,
        mapping' !! key_node_of r = Some pending ->
        reconcile_row mapping' r = Ok (inl (key_of r)))
  /\ (forall comp_rows, r ∈ comp_rows ->
        exists out_rows missing_map,
          reconcile_loop mapping comp_rows [] [] = Ok (out_rows, missing_map)
          /\ key_of r ∈ missing_map
          /\ is_raise (reconcile mapping comp_rows)).
Proof.
  intros Hnode Hpend Hall Hact.
  assert (forall mapping' : gmap map_key MappingRow,
            mapping' !! key_node_of r = Some pending -> unmatched mapping' r) as Hun.
  { intros mapping' H m [Hm | [Hm _]]; [|congruence].
    rewrite H in Hm. injection Hm as <-. by rewrite Hpend. }
  split; [|split].
  - apply reconcile_row_unmatched. by apply Hun.
  - intros mapping' H. apply reconcile_row_unmatched. by apply Hun.
  - intros comp_rows Hr.
    destruct (reconcile_loop_spec mapping comp_rows [] [])
      as (outs & misses & Hloop & Hm).
    cbn [app] in Hloop. exists outs, misses. split; [exact Hloop|].
    assert (key_of r ∈ misses) as Hin by (apply Hm; eauto).
    split; [exact Hin|].
    unfold reconcile. destruct comp_rows as [|r0 rest]; [by apply elem_of_nil in Hr|].
    rewrite Hloop. cbn [bind].
    destruct misses as [|k misses]; [by apply elem_of_nil in Hin | exact I].
Qed.

Lemma pending_shadows_wildcard_witness :
  reconcile_row sample_mapping_pending sample_comparison
  = Ok (inl ("Node03_HVT_A_COMPLETED", "Positive_Controls", "PC_01")).
Proof.
  apply (pending_shadows_wildcard sample_mapping_pending sample_comparison
           sample_pending sample_wildcard); reflexivity.
Defined.

(** ** Scenarios *)

Example scenario_baseline_reference :
  determine_expected_match (PStr "BASELINE_A_SRC")
    (PStr "QMS_CANDIDATE_WORKING_TAMPER") (PStr "QMS_CANDIDATE_NORMAL")
  = Ok ("QMSv5_02", "QMSv5_01", "A=BASELINE -> match=non-tamper").
Proof. vm_compute. reflexivity. Qed.

Example scenario_pc_reference :
  determine_expected_match (PStr " PC_REEXPORT_A ")
    (PStr "Q1_PC_PACKET") (PStr "Q2_WORKING_TAMPER")
  = Ok ("QMSv5_01", "QMSv5_02", "A=PC -> match=pc").
Proof. vm_compute. reflexivity. Qed.

Example scenario_norm_group :
  norm_group (PStr "IIIA_Positive_Controls") = Ok "Positive_Controls"
  /\ norm_group PNone = Ok ""
  /\ norm_group (PInt 7) = Raise (AttributeError "strip").
Proof. vm_compute. auto. Qed.

Example scenario_candidate_label :
  candidate_label_from_compare_folder "COMPARE_A_vs_QMSv5_01" = "QMSv5_01"
  /\ candidate_label_from_compare_folder "COMPARE_A_vs_QMSv5_02" = "QMSv5_02"
  /\ candidate_label_from_compare_folder "COMPARE_A_vs_QMSv5_03" = "".
Proof. vm_compute. auto. Qed.

Example scenario_flatten_pending :
  flatten_map
    [ {| job_id := "StageIV_Node03"; job_status_raw := PNone;
         arms := [ {[ "group" := PStr "IIIA_Positive_Controls";
                      "arm" := PStr "PC_01"; "status" := PStr "Pending";
                      "A_src" := PStr ""; "QMSv5_01_src" := PStr "";
                      "QMSv5_02_src" := PStr "" ]} ] |} ]
    "maps/stage_iv.md" "aa11"
  = Ok [sample_pending].
Proof. vm_compute. reflexivity. Qed.

Example scenario_flatten_ambiguous :
  flatten_map
    [ {| job_id := "StageIIIA"; job_status_raw := PStr "active";
         arms := [ {[ "group" := PStr "Baseline"; "arm" := PStr "ARM_A";
                      "A_src" := PStr "A_SRC"; "QMSv5_01_src" := PStr "Q1";
                      "QMSv5_02_src" := PStr "Q2" ]} ] |} ]
    "maps/stage_iiia.md" "bb22"
  = Raise (ArmError
             (ValueError "Ambiguous: BASELINE arm but neither candidate looks tamper")
             [("job_id", PStr "StageIIIA"); ("node_scope", PStr "ALL");
              ("group", PStr "Baseline"); ("arm", PStr "ARM_A");
              ("A_src", PStr "A_SRC"); ("QMSv5_01_src", PStr "Q1");
              ("QMSv5_02_src", PStr "Q2")]).
Proof. vm_compute. reflexivity. Qed.

Example scenario_override_row :
  pc_override_row "maps/run029_pc.md" "cc33" sample_fragment = Ok sample_override.
Proof. vm_compute. reflexivity. Qed.

Example scenario_merge_override :
  match merge [sample_wildcard] [sample_pending; sample_active] [sample_override] with
  | Ok merged =>
      (merged !! row_key sample_active, merged !! row_key sample_wildcard)
  | Raise _ => (None, None)
  end = (Some sample_override, Some sample_wildcard).
Proof. vm_compute. reflexivity. Qed.

Example scenario_merge_conflict :
  merge [sample_active] [sample_conflicting] [sample_override]
  = Raise (ConflictingActive (row_key sample_conflicting)).
Proof. vm_compute. reflexivity. Qed.

(** * Further properties of the script *)

(** ** More facts about the [str] methods *)

Section str_more.

Implicit Types (s t suf : string) (c : ascii).

Lemma upper_ascii_idem c : upper_ascii (upper_ascii c) = upper_ascii c.
Proof. by destruct c as [[] [] [] [] [] [] [] []]. Qed.

Lemma upper_lower_ascii c : upper_ascii (lower_ascii c) = upper_ascii c.
Proof. by destruct c as [[] [] [] [] [] [] [] []]. Qed.

Lemma upper_idem s : upper (upper s) = upper s.
Proof.
  induction s as [|c s IH]; [done|]. cbn [upper]. by rewrite upper_ascii_idem, IH.
Qed.

Lemma upper_lower s : upper (lower s) = upper s.
Proof.
  induction s as [|c s IH]; [done|]. cbn [upper lower].
  by rewrite upper_lower_ascii, IH.
Qed.

Lemma lstrip_head s c t : lstrip s = String c t -> isspace c = false.
Proof.
  induction s as [|x s IH]; [done|]. cbn [lstrip].
  destruct (isspace x) eqn:Hx; [done|]. by intros [= <- _].
Qed.

Lemma lstrip_fixed c t : isspace c = false -> lstrip (String c t) = String c t.
Proof. intros H. cbn [lstrip]. by rewrite H. Qed.

Lemma rstrip_head c t : isspace c = false -> rstrip (String c t) = String c (rstrip t).
Proof. intros H. rewrite rstrip_cons. by rewrite H. Qed.

Lemma rstrip_idem s : rstrip (rstrip s) = rstrip s.
Proof.
  induction s as [|c s IH]; [done|]. rewrite rstrip_cons.
  destruct (isspace c && bool_decide (rstrip s = "")) eqn:E; [done|].
  by rewrite rstrip_cons, IH, E.
Qed.

Lemma strip_idem s : strip (strip s) = strip s.
Proof.
  unfold strip. destruct (lstrip s) as [|c t] eqn:E; [done|].
  apply lstrip_head in E. rewrite (rstrip_head _ _ E), (lstrip_fixed _ _ E).
  by rewrite <- (rstrip_head _ _ E), rstrip_idem.
Qed.

Lemma lower_empty s : lower s = "" <-> s = "".
Proof. by destruct s. Qed.

Lemma strip_upper_empty s : strip (upper s) = "" <-> strip s = "".
Proof. by rewrite <- upper_strip, upper_empty. Qed.

Lemma str_length_app s t :
  String.length (s +:+ t) = String.length s + String.length t.
Proof.
  induction s as [|c s IH]; [done|]. rewrite str_app_cons. simpl. by rewrite IH.
Qed.

(** Two suffixes of one string that have the same length are equal. *)
Lemma app_same_suffix s1 t1 s2 t2 :
  s1 +:+ t1 = s2 +:+ t2 -> String.length t1 = String.length t2 -> t1 = t2.
Proof.
  revert s2. induction s1 as [|c s1 IH]; intros s2 H Hlen.
  - destruct s2 as [|c2 s2]; [done|]. exfalso.
    change (t1 = String c2 (s2 +:+ t2)) in H. subst t1.
    simpl in Hlen. rewrite str_length_app in Hlen. lia.
  - destruct s2 as [|c2 s2].
    + exfalso. change (String c (s1 +:+ t1) = t2) in H. subst t2.
      simpl in Hlen. rewrite str_length_app in Hlen. lia.
    + rewrite !str_app_cons in H. injection H as _ H. by eapply IH.
Qed.

(** [s.endswith(suf)] holds exactly when [s] is some string followed by
    [suf]. *)
Lemma endswith_spec suf s :
  endswith suf s = true <-> exists pre, s = pre +:+ suf.
Proof.
  induction s as [|c s IH].
  - cbn [endswith]. rewrite orb_false_r, bool_decide_eq_true. split.
    + intros <-. by exists "".
    + intros [pre H]. destruct pre; [done | discriminate].
  - cbn [endswith]. rewrite orb_true_iff, bool_decide_eq_true, IH. split.
    + intros [<- | [pre ->]]; [by exists "" | by exists (String c pre)].
    + intros [pre H]. destruct pre as [|x pre].
      * left. done.
      * right. rewrite str_app_cons in H. injection H as _ ->. eauto.
Qed.

End str_more.

(** ** More about the resolver *)

Section resolver_more.

(** The result of the resolver is fixed by which inputs are blank and by
    the cues that the three labels carry. *)
Lemma determine_ext (ref c1 c2 ref' d1 d2 : string) :
  (strip ref = "" <-> strip ref' = "") ->
  (strip c1 = "" <-> strip d1 = "") ->
  (strip c2 = "" <-> strip d2 = "") ->
  _a_type ref = _a_type ref' ->
  _looks_tamper c1 = _looks_tamper d1 -> _looks_tamper c2 = _looks_tamper d2 ->
  _looks_pc c1 = _looks_pc d1 -> _looks_pc c2 = _looks_pc d2 ->
  determine_expected_match (PStr ref) (PStr c1) (PStr c2)
  = determine_expected_match (PStr ref') (PStr d1) (PStr d2).
Proof.
  intros Ha H1 H2 Hk Ht1 Ht2 Hp1 Hp2.
  destruct (decide (strip ref = "" \/ strip c1 = "" \/ strip c2 = "")) as [Hb|Hn].
  - rewrite !determine_blank_str; [done | tauto | done].
  - rewrite !determine_nonblank by tauto. cbn zeta.
    by rewrite Hk, Ht1, Ht2, Hp1, Hp2.
Qed.

Lemma looks_tamper_upper s : _looks_tamper (upper s) = _looks_tamper s.
Proof. unfold _looks_tamper, _u. by rewrite upper_idem. Qed.

Lemma looks_pc_upper s : _looks_pc (upper s) = _looks_pc s.
Proof. unfold _looks_pc, _u. by rewrite upper_idem. Qed.

Lemma looks_tamper_lower s : _looks_tamper (lower s) = _looks_tamper s.
Proof. unfold _looks_tamper, _u. by rewrite upper_lower. Qed.

Lemma looks_pc_lower s : _looks_pc (lower s) = _looks_pc s.
Proof. unfold _looks_pc, _u. by rewrite upper_lower. Qed.

Lemma a_type_upper s : _a_type (upper s) = _a_type s.
Proof. unfold _a_type. by rewrite looks_tamper_upper, looks_pc_upper. Qed.

Lemma a_type_lower s : _a_type (lower s) = _a_type s.
Proof. unfold _a_type. by rewrite looks_tamper_lower, looks_pc_lower. Qed.

Lemma strip_lower_empty s : strip (lower s) = "" <-> strip s = "".
Proof.
  rewrite <- (strip_upper_empty (lower s)), upper_lower. apply strip_upper_empty.
Qed.

Lemma strip_strip_empty s : strip (strip s) = "" <-> strip s = "".
Proof. by rewrite strip_idem. Qed.

Lemma other_candidate_01 : other_candidate "QMSv5_01" = "QMSv5_02".
Proof. reflexivity. Qed.

Lemma other_candidate_02 : other_candidate "QMSv5_02" = "QMSv5_01".
Proof. reflexivity. Qed.

End resolver_more.

(** What a returned triple tells about the call. *)
Lemma determine_ok_inv (A q1 q2 : pyval) (m mm rule : string) :
  determine_expected_match A q1 q2 = Ok (m, mm, rule) ->
  (exists a s1 s2,
     or_empty_strip A = Ok a /\ or_empty_strip q1 = Ok s1
     /\ or_empty_strip q2 = Ok s2 /\ a <> "" /\ s1 <> "" /\ s2 <> "")
  /\ candidate_pair m mm
  /\ rule ∈ ["A=TAMPER -> match=tamper"; "A=PC -> match=pc";
             "A=PC -> match=non-tamper fallback"; "A=BASELINE -> match=non-tamper"].
Proof.
  unfold determine_expected_match.
  destruct (or_empty_strip A) as [a|]; [|done].
  destruct (or_empty_strip q1) as [s1|]; [|done].
  destruct (or_empty_strip q2) as [s2|]; [|done]. cbn [bind].
  destruct (bool_decide (a = "")) eqn:Ea; [done|].
  destruct (bool_decide (s1 = "")) eqn:E1; [done|].
  destruct (bool_decide (s2 = "")) eqn:E2; [done|].
  apply bool_decide_eq_false in Ea, E1, E2. cbn [orb].
  intros H. split; [by exists a, s1, s2|].
  unfold candidate_pair.
  repeat match type of H with
         | (if ?b then _ else _) = _ => destruct b
         end; try discriminate; injection H as <- <- <-;
    (split; [tauto|]); set_solver.
Qed.

(** X1. Whatever the resolver returns is one of the two candidate
    identifiers as the expected match and the other one as the expected
    mismatch, under one of the four rule tags; and it returns only for three
    inputs that are not blank. *)
Theorem determine_result_shape (A q1 q2 : pyval) (m mm rule : string) :
  determine_expected_match A q1 q2 = Ok (m, mm, rule) ->
  candidate_pair m mm
  /\ m <> mm
  /\ rule ∈ ["A=TAMPER -> match=tamper"; "A=PC -> match=pc";
             "A=PC -> match=non-tamper fallback"; "A=BASELINE -> match=non-tamper"]
  /\ ~ blank A /\ ~ blank q1 /\ ~ blank q2.
Proof.
  intros H.
  destruct (determine_ok_inv _ _ _ _ _ _ H)
    as ((a & s1 & s2 & Ea & E1 & E2 & Ha & H1 & H2) & Hpair & Hrule).
  split; [exact Hpair|]. split.
  { destruct Hpair as [[-> ->] | [-> ->]]; discriminate. }
  split; [exact Hrule|]. unfold blank.
  repeat split; intros Hb; congruence.
Qed.

Lemma determine_result_shape_witness :
  candidate_pair "QMSv5_02" "QMSv5_01" /\ ~ blank (PStr "BASELINE_A_SRC").
Proof.
  assert (determine_expected_match (PStr "BASELINE_A_SRC")
            (PStr "QMS_CANDIDATE_WORKING_TAMPER") (PStr "QMS_CANDIDATE_NORMAL")
          = Ok ("QMSv5_02", "QMSv5_01", "A=BASELINE -> match=non-tamper")) as H
    by (vm_compute; reflexivity).
  destruct (determine_result_shape _ _ _ _ _ _ H) as (Hp & _ & _ & Hb & _).
  split; [exact Hp | exact Hb].
Defined.

(** X2. Exchanging the two candidates exchanges the two identifiers in the
    result and keeps the rule tag; an exception is the same exception. *)
Theorem determine_swap_candidates (A q1 q2 : pyval) :
  determine_expected_match A q2 q1
  = swap_result (determine_expected_match A q1 q2).
Proof.
  unfold determine_expected_match.
  destruct (or_empty_strip A) as [a|]; [|done]. cbn [bind].
  destruct (or_empty_strip q1) as [s1|] eqn:E1,
    (or_empty_strip q2) as [s2|] eqn:E2; cbn [bind swap_result]; try done.
  - destruct (bool_decide (a = "")), (bool_decide (s1 = "")),
      (bool_decide (s2 = "")); cbn [orb swap_result]; try done.
    destruct (bool_decide (_a_type a = "TAMPER")),
      (bool_decide (_a_type a = "PC")),
      (_looks_tamper s1), (_looks_tamper s2), (_looks_pc s1), (_looks_pc s2);
      cbn [andb negb swap_result];
      rewrite ?other_candidate_01, ?other_candidate_02; reflexivity.
  - unfold or_empty_strip, py_strip in E1, E2.
    destruct (py_or q1 (PStr "")), (py_or q2 (PStr "")); congruence.
Qed.

(** X3. The resolver reads its labels without regard to letter case and
    to surrounding white space: putting all three in capitals, in small
    letters, or stripping them changes nothing. *)
Theorem determine_case_and_space (ref c1 c2 : string) :
  determine_expected_match (PStr (upper ref)) (PStr (upper c1)) (PStr (upper c2))
  = determine_expected_match (PStr ref) (PStr c1) (PStr c2)
  /\ determine_expected_match (PStr (lower ref)) (PStr (lower c1)) (PStr (lower c2))
     = determine_expected_match (PStr ref) (PStr c1) (PStr c2)
  /\ determine_expected_match (PStr (strip ref)) (PStr (strip c1)) (PStr (strip c2))
     = determine_expected_match (PStr ref) (PStr c1) (PStr c2).
Proof.
  split; [|split]; apply determine_ext;
    auto using strip_upper_empty, strip_lower_empty, strip_strip_empty,
      a_type_upper, a_type_lower, a_type_strip,
      looks_tamper_upper, looks_tamper_lower, looks_tamper_strip,
      looks_pc_upper, looks_pc_lower, looks_pc_strip.
Qed.

(** X4. A TAMPER reference, three non-blank strings: the candidate that
    alone is TAMPER is the expected match. *)
Theorem resolve_tamper (ref c1 c2 : string) :
  strip ref <> "" -> strip c1 <> "" -> strip c2 <> "" ->
  _a_type ref = "TAMPER" ->
  (_looks_tamper c1 = true -> _looks_tamper c2 = false ->
     determine_expected_match (PStr ref) (PStr c1) (PStr c2)
     = Ok ("QMSv5_01", "QMSv5_02", "A=TAMPER -> match=tamper"))
  /\ (_looks_tamper c1 = false -> _looks_tamper c2 = true ->
        determine_expected_match (PStr ref) (PStr c1) (PStr c2)
        = Ok ("QMSv5_02", "QMSv5_01", "A=TAMPER -> match=tamper"))
  /\ (_looks_tamper c1 = _looks_tamper c2 ->
        determine_expected_match (PStr ref) (PStr c1) (PStr c2)
        = Raise (ValueError
                   "Ambiguous: A is TAMPER but candidates not uniquely tamper")).
Proof.
  intros Ha H1 H2 Href. rewrite determine_nonblank by done. cbn zeta.
  rewrite Href. rewrite bool_decide_eq_true_2 by done.
  destruct (_looks_tamper c1), (_looks_tamper c2); (split; [|split]); done.
Qed.

Lemma resolve_tamper_witness :
  determine_expected_match (PStr "A_WORKING_TAMPER")
    (PStr "Q1_NORMAL") (PStr "Q2_TAMPER")
  = Ok ("QMSv5_02", "QMSv5_01", "A=TAMPER -> match=tamper").
Proof.
  assert (strip "A_WORKING_TAMPER" <> "") as Ha by (vm_compute; discriminate).
  assert (strip "Q1_NORMAL" <> "") as H1 by (vm_compute; discriminate).
  assert (strip "Q2_TAMPER" <> "") as H2 by (vm_compute; discriminate).
  assert (_a_type "A_WORKING_TAMPER" = "TAMPER") as Href by (vm_compute; reflexivity).
  assert (_looks_tamper "Q1_NORMAL" = false) as Ht1 by (vm_compute; reflexivity).
  assert (_looks_tamper "Q2_TAMPER" = true) as Ht2 by (vm_compute; reflexivity).
  exact (proj1 (proj2 (resolve_tamper _ _ _ Ha H1 H2 Href)) Ht1 Ht2).
Defined.

(** X5. A PC reference, three non-blank strings: the candidate that alone
    carries a PC cue is the expected match, also when it looks TAMPER;
    when both or neither carry one, the candidate that alone is TAMPER is
    the expected mismatch; otherwise the resolver raises. *)
Theorem resolve_pc (ref c1 c2 : string) :
  strip ref <> "" -> strip c1 <> "" -> strip c2 <> "" ->
  _a_type ref = "PC" ->
  (_looks_pc c1 = true -> _looks_pc c2 = false ->
     determine_expected_match (PStr ref) (PStr c1) (PStr c2)
     = Ok ("QMSv5_01", "QMSv5_02", "A=PC -> match=pc"))
  /\ (_looks_pc c1 = false -> _looks_pc c2 = true ->
        determine_expected_match (PStr ref) (PStr c1) (PStr c2)
        = Ok ("QMSv5_02", "QMSv5_01", "A=PC -> match=pc"))
  /\ (_looks_pc c1 = _looks_pc c2 ->
        _looks_tamper c1 = true -> _looks_tamper c2 = false ->
        determine_expected_match (PStr ref) (PStr c1) (PStr c2)
        = Ok ("QMSv5_02", "QMSv5_01", "A=PC -> match=non-tamper fallback"))
  /\ (_looks_pc c1 = _looks_pc c2 ->
        _looks_tamper c1 = false -> _looks_tamper c2 = true ->
        determine_expected_match (PStr ref) (PStr c1) (PStr c2)
        = Ok ("QMSv5_01", "QMSv5_02", "A=PC -> match=non-tamper fallback"))
  /\ (_looks_pc c1 = _looks_pc c2 -> _looks_tamper c1 = _looks_tamper c2 ->
        determine_expected_match (PStr ref) (PStr c1) (PStr c2)
        = Raise (ValueError
            "Ambiguous: A is PC but candidates not uniquely PC or tamper-distinguishable")).
Proof.
  intros Ha H1 H2 Href. rewrite determine_nonblank by done. cbn zeta.
  rewrite Href. rewrite bool_decide_eq_false_2 by discriminate.
  rewrite bool_decide_eq_true_2 by done.
  destruct (_looks_pc c1), (_looks_pc c2), (_looks_tamper c1), (_looks_tamper c2);
    repeat split; done.
Qed.

Lemma resolve_pc_witness :
  determine_expected_match (PStr "PC_REEXPORT_A")
    (PStr "Q1_PC_PACKET_TAMPER") (PStr "Q2_NORMAL")
  = Ok ("QMSv5_01", "QMSv5_02", "A=PC -> match=pc").
Proof.
  assert (strip "PC_REEXPORT_A" <> "") as Ha by (vm_compute; discriminate).
  assert (strip "Q1_PC_PACKET_TAMPER" <> "") as H1 by (vm_compute; discriminate).
  assert (strip "Q2_NORMAL" <> "") as H2 by (vm_compute; discriminate).
  assert (_a_type "PC_REEXPORT_A" = "PC") as Href by (vm_compute; reflexivity).
  assert (_looks_pc "Q1_PC_PACKET_TAMPER" = true) as Hp1 by (vm_compute; reflexivity).
  assert (_looks_pc "Q2_NORMAL" = false) as Hp2 by (vm_compute; reflexivity).
  exact (proj1 (resolve_pc _ _ _ Ha H1 H2 Href) Hp1 Hp2).
Defined.

(** X6. The candidate label read off a compare folder: every folder name
    that ends in [_01] gives the first candidate, every one that ends in
    [_02] the second, and the label is empty exactly for the names that end
    in neither. *)
Theorem candidate_label_by_suffix :
  (forall p, candidate_label_from_compare_folder (p +:+ "_01") = "QMSv5_01")
  /\ (forall p, candidate_label_from_compare_folder (p +:+ "_02") = "QMSv5_02")
  /\ (forall s, candidate_label_from_compare_folder s = "" <->
        (forall p, s <> p +:+ "_01") /\ (forall p, s <> p +:+ "_02")).
Proof.
  unfold candidate_label_from_compare_folder. split; [|split].
  - intros p. assert (endswith "_01" (p +:+ "_01") = true) as ->; [|done].
    apply endswith_spec. by exists p.
  - intros p. assert (endswith "_01" (p +:+ "_02") = false) as ->.
    { apply not_true_iff_false. intros [q H]%endswith_spec.
      by apply app_same_suffix in H. }
    assert (endswith "_02" (p +:+ "_02") = true) as ->; [|done].
    apply endswith_spec. by exists p.
  - intros s. destruct (endswith "_01" s) eqn:E1.
    + apply endswith_spec in E1 as [p ->]. split; [done|].
      intros [H _]. by destruct (H p).
    + destruct (endswith "_02" s) eqn:E2.
      * apply endswith_spec in E2 as [p ->]. split; [done|].
        intros [_ H]. by destruct (H p).
      * split; [|done]. intros _. split; intros p ->.
        -- assert (endswith "_01" (p +:+ "_01") = true) as H
             by (apply endswith_spec; by exists p). congruence.
        -- assert (endswith "_02" (p +:+ "_02") = true) as H
             by (apply endswith_spec; by exists p). congruence.
Qed.

(** ** The map flattener and the override fragments *)

Section flattener.

Lemma mapM_Forall2 {A B} (f : A -> result B) (l : list A) (ys : list B) :
  mapM f l = Ok ys -> Forall2 (fun x y => f x = Ok y) l ys.
Proof.
  revert ys. induction l as [|x l IH]; intros ys; cbn [mapM].
  - intros [= <-]. constructor.
  - destruct (f x) as [y|] eqn:Ex; [cbn [bind] | done].
    destruct (mapM f l) as [ys'|]; [cbn [bind] | done].
    intros [= <-]. constructor; auto.
Qed.

Lemma mapM_raise {A B} (f : A -> result B) (l : list A) (x : A) :
  x ∈ l -> is_raise (f x) -> is_raise (mapM f l).
Proof.
  induction l as [|x0 l IH]; [by intros ?%elem_of_nil|].
  intros [-> | Hx]%elem_of_cons Hr; cbn [mapM].
  - by destruct (f x0).
  - destruct (f x0); [cbn [bind] | done].
    specialize (IH Hx Hr). by destruct (mapM f l).
Qed.

Lemma node_scope_cases (job_id : string) :
  _node_scope_from_job job_id
  ∈ ["Node02_HVT_A_COMPLETED"; "Node03_HVT_A_COMPLETED"; "ALL"].
Proof.
  unfold _node_scope_from_job. repeat case_bool_decide; set_solver.
Qed.

(** What a row built by [flatten_arm] holds. *)
Lemma flatten_arm_ok (job_id job_status scope file sha : string)
    (a : gmap string pyval) (row : MappingRow) :
  flatten_arm job_id job_status scope file sha a = Ok row ->
  row_ok row
  /\ node_scope row = scope /\ map_job_id row = job_id
  /\ map_source_file row = file /\ map_source_sha256 row = sha
  /\ map_manual_override_flag row = None
  /\ norm_group (py_get a "group") = Ok (group row)
  /\ arm row = py_get a "arm"
  /\ A_src row = py_get_d a "A_src" (PStr "")
  /\ QMSv5_01_src row = py_get_d a "QMSv5_01_src" (PStr "")
  /\ QMSv5_02_src row = py_get_d a "QMSv5_02_src" (PStr "").
Proof.
  unfold flatten_arm.
  destruct (norm_group (py_get a "group")) as [g|]; [cbn [bind] | done].
  destruct (py_lower _) as [st|]; [cbn [bind] | done].
  destruct (bool_decide (st = "pending")).
  - intros [= <-]. cbn. repeat split. left. done.
  - destruct (determine_expected_match _ _ _) as [[[m mm] rl]|] eqn:E; [|done].
    intros [= <-]. cbn. repeat split. right. split; [done|].
    by apply determine_ok_inv in E as (_ & ? & _).
Qed.

Lemma sum_list_with_concat_length {A} (ls : list (list A)) :
  length (concat ls) = sum_list (length <$> ls).
Proof.
  induction ls as [|l ls IH]; [done|]. simpl. by rewrite length_app, IH.
Qed.

Lemma elem_of_concat {A} (x : A) (ls : list (list A)) :
  x ∈ concat ls <-> exists l, x ∈ l /\ l ∈ ls.
Proof.
  induction ls as [|l ls IH]; simpl.
  - split; [by intros ?%elem_of_nil | by intros (l & _ & ?%elem_of_nil)].
  - rewrite elem_of_app, IH. split.
    + intros [H | (l' & H1 & H2)]; [exists l | exists l'];
        rewrite elem_of_cons; auto.
    + intros (l' & H1 & [-> | H2]%elem_of_cons); eauto.
Qed.

End flattener.

(** The rows of a successful [flatten_map], read back. *)
Lemma flatten_map_inv (jobs : list job) (file sha : string)
    (rows : list MappingRow) :
  flatten_map jobs file sha = Ok rows ->
  (forall row, row ∈ rows ->
     row_ok row
     /\ map_source_file row = file /\ map_source_sha256 row = sha
     /\ map_manual_override_flag row = None
     /\ node_scope row = _node_scope_from_job (map_job_id row)
     /\ node_scope row
        ∈ ["Node02_HVT_A_COMPLETED"; "Node03_HVT_A_COMPLETED"; "ALL"])
  /\ length rows = sum_list ((fun j => length (arms j)) <$> jobs).
Proof.
  unfold flatten_map.
  destruct (mapM (flatten_job file sha) jobs) as [rowss|] eqn:E; [cbn [bind] | done].
  intros [= <-]. apply mapM_Forall2 in E.
  assert (Forall2 (fun j rs =>
            length rs = length (arms j)
            /\ forall row, row ∈ rs ->
                 row_ok row
                 /\ map_source_file row = file /\ map_source_sha256 row = sha
                 /\ map_manual_override_flag row = None
                 /\ node_scope row = _node_scope_from_job (map_job_id row)
                 /\ node_scope row
                    ∈ ["Node02_HVT_A_COMPLETED"; "Node03_HVT_A_COMPLETED"; "ALL"])
            jobs rowss) as Hjobs.
  { eapply Forall2_impl; [exact E|]. intros j rs Hj. unfold flatten_job in Hj.
    destruct (py_lower _) as [js|]; [cbn [bind] in Hj | done].
    apply mapM_Forall2 in Hj. split; [symmetry; by eapply Forall2_length|].
    intros row Hrow.
    destruct (proj1 (list_elem_of_lookup _ _) Hrow) as [i Hi].
    destruct (Forall2_lookup_r _ _ _ _ _ Hj Hi) as (a & _ & Ha).
    apply flatten_arm_ok in Ha as (Hok & Hs & Hid & Hf & Hsha & Hflag & _).
    repeat split; try done.
    - by rewrite Hs, Hid.
    - rewrite Hs. apply node_scope_cases. }
  clear E. split.
  - intros row Hrow. apply elem_of_concat in Hrow as (rs & Hrow & Hrs).
    destruct (proj1 (list_elem_of_lookup _ _) Hrs) as [i Hi].
    destruct (Forall2_lookup_r _ _ _ _ _ Hjobs Hi) as (j & _ & _ & Hall). auto.
  - rewrite sum_list_with_concat_length. f_equal.
    induction Hjobs as [|j rs jobs' rowss' [Hlen _] _ IH]; [done|].
    cbn [fmap list_fmap]. by rewrite Hlen, IH.
Qed.

(** X7. Every row of a successful [flatten_map] is a pending placeholder
    without expected values or an active row with the two candidate ids;
    it carries the path and the hash of the document and no override flag;
    its scope is the one of its job, one of the two nodes or the wildcard;
    and there is one row per arm. *)
Theorem flatten_map_rows (jobs : list job) (file sha : string)
    (rows : list MappingRow) :
  flatten_map jobs file sha = Ok rows ->
  (forall row, row ∈ rows ->
     row_ok row
     /\ map_source_file row = file /\ map_source_sha256 row = sha
     /\ map_manual_override_flag row = None
     /\ node_scope row = _node_scope_from_job (map_job_id row)
     /\ node_scope row
        ∈ ["Node02_HVT_A_COMPLETED"; "Node03_HVT_A_COMPLETED"; "ALL"])
  /\ length rows = sum_list ((fun j => length (arms j)) <$> jobs).
Proof.
  intros H. destruct (flatten_map_inv _ _ _ _ H) as [Hall Hlen].
  split; [|exact Hlen]. intros row Hrow. exact (Hall row Hrow).
Qed.

Lemma flatten_map_rows_witness :
  exists rows,
    flatten_map sample_stage_iv "maps/stage_iv.md" "aa11" = Ok rows
    /\ length rows = 3
    /\ forall row, row ∈ rows -> row_ok row /\ map_source_sha256 row = "aa11".
Proof.
  eexists. split; [vm_compute; reflexivity|].
  match goal with
  | |- length ?rows = _ /\ _ =>
      destruct (flatten_map_rows sample_stage_iv "maps/stage_iv.md" "aa11" rows)
        as [Hall Hlen]; [vm_compute; reflexivity|]
  end.
  split; [exact Hlen|]. intros row Hrow.
  destruct (Hall row Hrow) as (Hok & _ & Hsha & _). by split.
Defined.

(** X8. The flattener fails closed and says where: an arm that is not
    pending and on which the resolver raises makes the whole [flatten_map]
    raise, and the exception of the arm wraps the one of the resolver
    together with the job, the scope, the group, the arm and the three
    labels. *)
Theorem flatten_fail_closed (jobs : list job) (file sha : string)
    (j : job) (a : gmap string pyval) (job_status g a_status : string) (cause : exn) :
  j ∈ jobs -> a ∈ arms j ->
  py_lower (py_or (job_status_raw j) (PStr "active")) = Ok job_status ->
  norm_group (py_get a "group") = Ok g ->
  py_lower (py_or (py_or (py_get a "status") (PStr job_status)) (PStr "active"))
    = Ok a_status ->
  a_status <> "pending" ->
  determine_expected_match (py_get_d a "A_src" (PStr ""))
    (py_get_d a "QMSv5_01_src" (PStr "")) (py_get_d a "QMSv5_02_src" (PStr ""))
    = Raise cause ->
  flatten_arm (job_id j) job_status (_node_scope_from_job (job_id j)) file sha a
  = Raise (ArmError cause
      [("job_id", PStr (job_id j));
       ("node_scope", PStr (_node_scope_from_job (job_id j)));
       ("group", PStr g); ("arm", py_get a "arm");
       ("A_src", py_get_d a "A_src" (PStr ""));
       ("QMSv5_01_src", py_get_d a "QMSv5_01_src" (PStr ""));
       ("QMSv5_02_src", py_get_d a "QMSv5_02_src" (PStr ""))])
  /\ is_raise (flatten_map jobs file sha).
Proof.
  intros Hj Ha Hjs Hg Hst Hnp Hcause.
  assert (flatten_arm (job_id j) job_status (_node_scope_from_job (job_id j))
            file sha a
          = Raise (ArmError cause
              [("job_id", PStr (job_id j));
               ("node_scope", PStr (_node_scope_from_job (job_id j)));
               ("group", PStr g); ("arm", py_get a "arm");
               ("A_src", py_get_d a "A_src" (PStr ""));
               ("QMSv5_01_src", py_get_d a "QMSv5_01_src" (PStr ""));
               ("QMSv5_02_src", py_get_d a "QMSv5_02_src" (PStr ""))])) as Harm.
  { unfold flatten_arm. rewrite Hg. cbn [bind]. rewrite Hst. cbn [bind].
    rewrite bool_decide_eq_false_2 by done. by rewrite Hcause. }
  split; [exact Harm|].
  assert (is_raise (flatten_job file sha j)) as Hjob.
  { unfold flatten_job. rewrite Hjs. cbn [bind].
    apply (mapM_raise _ _ a Ha). by rewrite Harm. }
  unfold flatten_map.
  pose proof (mapM_raise (flatten_job file sha) jobs j Hj Hjob) as Hall.
  by destruct (mapM (flatten_job file sha) jobs).
Qed.

Lemma flatten_fail_closed_witness :
  is_raise (flatten_map sample_stage_bad "maps/stage_iiia.md" "bb22").
Proof.
  refine (proj2 (flatten_fail_closed sample_stage_bad "maps/stage_iiia.md" "bb22"
            {| job_id := "StageIIIA"; job_status_raw := PNone;
               arms := [sample_arm_baseline; sample_arm_ambiguous] |}
            sample_arm_ambiguous "active" "Baseline" "active"
            (ValueError "Ambiguous: BASELINE arm but neither candidate looks tamper")
            _ _ _ _ _ _ _)).
  - left.
  - right. left.
  - vm_compute. reflexivity.
  - vm_compute. reflexivity.
  - vm_compute. reflexivity.
  - discriminate.
  - vm_compute. reflexivity.
Defined.

(** X9. A pending arm is never resolved: whatever its three labels are,
    it yields the placeholder row. The status is read without regard to
    letter case, and an arm without a status of its own takes the one of
    its job. *)
Theorem flatten_pending_arm (job_id job_status scope file sha : string)
    (a : gmap string pyval) (g : string) :
  norm_group (py_get a "group") = Ok g ->
  ((exists st, py_get a "status" = PStr st /\ lower st = "pending")
   \/ (truthy (py_get a "status") = false /\ lower job_status = "pending")) ->
  flatten_arm job_id job_status scope file sha a
  = Ok {| node_scope := scope; group := g; arm := py_get a "arm";
          status := "pending";
          expected_match_candidate := ""; expected_mismatch_candidate := "";
          rule := "";
          A_src := py_get_d a "A_src" (PStr "");
          QMSv5_01_src := py_get_d a "QMSv5_01_src" (PStr "");
          QMSv5_02_src := py_get_d a "QMSv5_02_src" (PStr "");
          map_job_id := job_id; map_source_file := file;
          map_source_sha256 := sha; map_manual_override_flag := None |}.
Proof.
  intros Hg Hst. unfold flatten_arm. rewrite Hg. cbn [bind].
  assert (py_lower (py_or (py_or (py_get a "status") (PStr job_status))
                      (PStr "active")) = Ok "pending") as ->.
  { destruct Hst as [(st & -> & Hl) | [Hf Hl]].
    - assert (st <> "") as Hne by (intros ->; discriminate).
      unfold py_or. cbn [truthy]. rewrite !bool_decide_eq_false_2 by done.
      cbn [negb truthy]. rewrite bool_decide_eq_false_2 by done.
      cbn [negb py_lower]. by rewrite Hl.
    - assert (job_status <> "") as Hne by (intros ->; discriminate).
      unfold py_or at 2. rewrite Hf. unfold py_or. cbn [truthy].
      rewrite bool_decide_eq_false_2 by done. cbn [negb py_lower]. by rewrite Hl. }
  cbn [bind]. by rewrite bool_decide_eq_true_2.
Qed.

Lemma flatten_pending_arm_witness :
  exists row,
    flatten_arm "StageIV_Node03" "active" "Node03_HVT_A_COMPLETED"
      "maps/stage_iv.md" "aa11" sample_arm_pending = Ok row
    /\ status row = "pending" /\ QMSv5_02_src row = PNone.
Proof.
  eexists. split.
  - apply (flatten_pending_arm _ _ _ _ _ sample_arm_pending "Positive_Controls").
    + vm_compute. reflexivity.
    + left. exists "PENDING". split; vm_compute; reflexivity.
  - split; vm_compute; reflexivity.
Defined.

Lemma pc_override_row_ok (file sha : string) (a : gmap string pyval)
    (row : MappingRow) :
  pc_override_row file sha a = Ok row ->
  status row = "active"
  /\ candidate_pair (expected_match_candidate row) (expected_mismatch_candidate row)
  /\ node_scope row = "Node03_HVT_A_COMPLETED"
  /\ map_job_id row = "StageIV_Node03_PC_OVERRIDE"
  /\ map_manual_override_flag row = Some 1%Z
  /\ map_source_file row = file /\ map_source_sha256 row = sha
  /\ norm_group (py_get a "group") = Ok (group row)
  /\ arm row = py_get a "arm".
Proof.
  unfold pc_override_row.
  destruct (norm_group (py_get a "group")) as [g|]; [cbn [bind] | done].
  destruct (determine_expected_match _ _ _) as [[[m mm] rl]|] eqn:E; [|done].
  intros [= <-]. cbn. repeat split.
  by apply determine_ok_inv in E as (_ & ? & _).
Qed.

(** The rows of a successful [parse_pc_override_fragments], read back. *)
Lemma parse_pc_rows_inv (frags : list (gmap string pyval)) (file sha : string)
    (rows : list MappingRow) :
  parse_pc_override_fragments frags file sha = Ok rows ->
  length rows = length frags
  /\ forall row, row ∈ rows ->
       row_ok row /\ status row = "active"
       /\ node_scope row = "Node03_HVT_A_COMPLETED"
       /\ map_job_id row = "StageIV_Node03_PC_OVERRIDE"
       /\ map_manual_override_flag row = Some 1%Z
       /\ map_source_file row = file /\ map_source_sha256 row = sha.
Proof.
  intros H.
  assert (mapM (pc_override_row file sha) frags = Ok rows) as Hm.
  { destruct frags; [done | exact H]. }
  apply mapM_Forall2 in Hm. split; [symmetry; by eapply Forall2_length|].
  intros row Hrow.
  destruct (proj1 (list_elem_of_lookup _ _) Hrow) as [i Hi].
  destruct (Forall2_lookup_r _ _ _ _ _ Hm Hi) as (a & _ & Ha).
  apply pc_override_row_ok in Ha as (Hst & Hpair & Hs & Hid & Hflag & Hf & Hsha & _).
  repeat split; try done. right. by split.
Qed.

(** X10. The override fragments: none at all is an error; otherwise
    every fragment gives one row, and every row is active whatever status
    the fragment states, holds the two candidate ids, is scoped to Node03,
    names the override job and carries the override flag 1 with the path and
    the hash of the override file. *)
Theorem parse_pc_override_rows (frags : list (gmap string pyval)) (file sha : string) :
  (frags = [] ->
     parse_pc_override_fragments frags file sha
     = Raise (ValueError "Could not extract PC override fragments"))
  /\ (forall rows,
        parse_pc_override_fragments frags file sha = Ok rows ->
        length rows = length frags
        /\ forall row, row ∈ rows ->
             row_ok row /\ status row = "active"
             /\ node_scope row = "Node03_HVT_A_COMPLETED"
             /\ map_job_id row = "StageIV_Node03_PC_OVERRIDE"
             /\ map_manual_override_flag row = Some 1%Z
             /\ map_source_file row = file /\ map_source_sha256 row = sha).
Proof.
  split.
  - by intros ->.
  - intros rows H. destruct (parse_pc_rows_inv _ _ _ _ H) as [Hlen Hall].
    split; [exact Hlen|]. intros row Hrow. exact (Hall row Hrow).
Qed.

Lemma parse_pc_override_rows_witness :
  exists rows,
    parse_pc_override_fragments
      [sample_fragment; <["status" := PStr "pending"]> sample_fragment]
      "maps/run029_pc.md" "cc33" = Ok rows
    /\ length rows = 2
    /\ forall row, row ∈ rows ->
         status row = "active" /\ map_manual_override_flag row = Some 1%Z.
Proof.
  eexists. split; [vm_compute; reflexivity|].
  match goal with
  | |- length ?rows = _ /\ _ =>
      destruct (proj2 (parse_pc_override_rows
                  [sample_fragment; <["status" := PStr "pending"]> sample_fragment]
                  "maps/run029_pc.md" "cc33") rows) as [Hlen Hall];
        [vm_compute; reflexivity|]
  end.
  split; [exact Hlen|]. intros row Hrow.
  destruct (Hall row Hrow) as (_ & Hst & _ & _ & Hflag & _). by split.
Defined.

(** ** More about the merge engine *)

Lemma is_ok_inv {A} (r : result A) : is_ok r -> exists a, r = Ok a.
Proof. destruct r; [eauto | done]. Qed.

Section merge_more.

Implicit Types (mapping : gmap map_key MappingRow) (row existing : MappingRow)
  (rows : list MappingRow) (k : map_key).

(** The four ways a put without force can end. *)
Lemma put_spec mapping row :
  (mapping !! row_key row = None
   /\ put mapping row false = Ok (<[row_key row := row]> mapping))
  \/ (exists existing,
        mapping !! row_key row = Some existing
        /\ status existing = "pending" /\ status row = "active"
        /\ put mapping row false = Ok (<[row_key row := row]> mapping))
  \/ (exists existing,
        mapping !! row_key row = Some existing
        /\ status existing = "active" /\ status row = "active"
        /\ expected_match_candidate existing <> expected_match_candidate row
        /\ put mapping row false = Raise (ConflictingActive (row_key row)))
  \/ (exists existing,
        mapping !! row_key row = Some existing
        /\ ~ (status existing = "pending" /\ status row = "active")
        /\ (status existing = "active" -> status row = "active" ->
            expected_match_candidate existing = expected_match_candidate row)
        /\ put mapping row false = Ok mapping).
Proof.
  destruct (mapping !! row_key row) as [existing|] eqn:H.
  2: { left. split; [done|]. by apply put_first. }
  right. destruct (decide (status row = "active")) as [Ha|Hna].
  - destruct (decide (status existing = "pending")) as [Hp|Hnp].
    { left. exists existing. repeat split; try done. by eapply put_pending_active. }
    right. destruct (decide (status existing = "active")) as [He|Hne].
    + destruct (decide (expected_match_candidate existing
                        = expected_match_candidate row)) as [Hm|Hm].
      * right. exists existing. split; [done|]. split; [tauto|]. split; [done|].
        by eapply put_active_agree.
      * left. exists existing. repeat split; try done.
        by eapply put_active_conflict.
    + right. exists existing. split; [done|]. split; [tauto|]. split; [done|].
      by eapply put_inert.
  - right. right. exists existing. split; [done|]. split; [tauto|]. split; [done|].
    by eapply put_keeps.
Qed.

(** A put that succeeds leaves the mapping as it is or stores the row
    under its key. *)
Lemma put_result mapping row (force : bool) mapping' :
  put mapping row force = Ok mapping' ->
  mapping' = mapping \/ mapping' = <[row_key row := row]> mapping.
Proof.
  destruct force.
  - rewrite put_force. intros [= <-]. by right.
  - destruct (put_spec mapping row)
      as [[_ H] | [(ex & _ & _ & _ & H) | [(ex & _ & _ & _ & _ & H)
          | (ex & _ & _ & _ & H)]]];
      rewrite H; intros [= <-]; auto.
Qed.

Lemma put_other_key mapping row (force : bool) mapping' k :
  put mapping row force = Ok mapping' -> k <> row_key row ->
  mapping' !! k = mapping !! k.
Proof.
  intros [-> | ->]%put_result Hk; [done|]. by rewrite lookup_insert_ne.
Qed.

(** After a put, forced or not, the key of the row is present. *)
Lemma put_key_present mapping row (force : bool) mapping' :
  put mapping row force = Ok mapping' -> is_Some (mapping' !! row_key row).
Proof.
  destruct force.
  - rewrite put_force. intros [= <-]. rewrite lookup_insert_eq. by eexists.
  - destruct (put_spec mapping row)
      as [[_ H] | [(ex & _ & _ & _ & H) | [(ex & _ & _ & _ & _ & H)
          | (ex & Hex & _ & _ & H)]]];
      rewrite H; intros [= <-]; rewrite ?lookup_insert_eq; by eexists.
Qed.

Lemma put_keeps_keys mapping row (force : bool) mapping' k :
  put mapping row force = Ok mapping' ->
  is_Some (mapping !! k) -> is_Some (mapping' !! k).
Proof.
  intros [-> | ->]%put_result Hk; [done|].
  destruct (decide (row_key row = k)) as [<- | Hne].
  - rewrite lookup_insert_eq. by eexists.
  - by rewrite lookup_insert_ne.
Qed.

(** Every row of the mapping after a put was there before or is the row
    put, and that one sits under its own key. *)
Lemma put_lookup_inv mapping row (force : bool) mapping' k r :
  put mapping row force = Ok mapping' -> mapping' !! k = Some r ->
  mapping !! k = Some r \/ (r = row /\ k = row_key row).
Proof.
  intros [-> | ->]%put_result; [auto|].
  destruct (decide (row_key row = k)) as [<- | Hne].
  - rewrite lookup_insert_eq. intros [= <-]. auto.
  - rewrite lookup_insert_ne by done. auto.
Qed.

(** Without force an active row stays where it is. *)
Lemma put_active_stays mapping row mapping' k existing :
  put mapping row false = Ok mapping' ->
  mapping !! k = Some existing -> status existing = "active" ->
  mapping' !! k = Some existing.
Proof.
  intros Hput Hk Hact.
  destruct (decide (k = row_key row)) as [-> | Hne].
  2: { by rewrite (put_other_key _ _ _ _ _ Hput Hne). }
  destruct (put_spec mapping row)
    as [[Hn _] | [(ex & Hex & Hp & _) | [(ex & _ & _ & _ & _ & H)
        | (ex & _ & _ & _ & H)]]]; congruence.
Qed.

Lemma put_all_cons mapping row rows (force : bool) :
  put_all mapping (row :: rows) force
  = let* mapping' := put mapping row force in put_all mapping' rows force.
Proof. reflexivity. Qed.

Lemma put_all_app mapping rows1 rows2 (force : bool) :
  put_all mapping (rows1 ++ rows2) force
  = let* mapping' := put_all mapping rows1 force in put_all mapping' rows2 force.
Proof.
  revert mapping. induction rows1 as [|r rows1 IH]; intros mapping; [done|].
  cbn [app put_all]. destruct (put mapping r force); [cbn [bind] | done]. apply IH.
Qed.

Lemma put_all_lookup_inv mapping rows (force : bool) mapping' k r :
  put_all mapping rows force = Ok mapping' -> mapping' !! k = Some r ->
  mapping !! k = Some r \/ (r ∈ rows /\ k = row_key r).
Proof.
  revert mapping. induction rows as [|r0 rows IH]; intros mapping; cbn [put_all].
  - intros [= <-]. auto.
  - destruct (put mapping r0 force) as [m1|] eqn:E; [cbn [bind] | done].
    intros Hall Hk. destruct (IH _ Hall Hk) as [H1 | [Hin ->]].
    + destruct (put_lookup_inv _ _ _ _ _ _ E H1) as [? | [-> ->]]; [auto|].
      right. split; [left | done].
    + right. split; [by right | done].
Qed.

Lemma put_all_keeps_keys mapping rows (force : bool) mapping' k :
  put_all mapping rows force = Ok mapping' ->
  is_Some (mapping !! k) -> is_Some (mapping' !! k).
Proof.
  revert mapping. induction rows as [|r0 rows IH]; intros mapping; cbn [put_all].
  - by intros [= <-].
  - destruct (put mapping r0 force) as [m1|] eqn:E; [cbn [bind] | done].
    intros Hall Hk. eapply IH; [done|]. by eapply put_keeps_keys.
Qed.

Lemma put_all_covers mapping rows (force : bool) mapping' r :
  put_all mapping rows force = Ok mapping' -> r ∈ rows ->
  is_Some (mapping' !! row_key r).
Proof.
  revert mapping. induction rows as [|r0 rows IH]; intros mapping; cbn [put_all].
  - by intros _ ?%elem_of_nil.
  - destruct (put mapping r0 force) as [m1|] eqn:E; [cbn [bind] | done].
    intros Hall [-> | Hr]%elem_of_cons; [|by eapply IH].
    eapply put_all_keeps_keys; [done|]. by eapply put_key_present.
Qed.

Lemma put_all_active_stays mapping rows mapping' k existing :
  put_all mapping rows false = Ok mapping' ->
  mapping !! k = Some existing -> status existing = "active" ->
  mapping' !! k = Some existing.
Proof.
  revert mapping. induction rows as [|r0 rows IH]; intros mapping; cbn [put_all].
  - by intros [= <-].
  - destruct (put mapping r0 false) as [m1|] eqn:E; [cbn [bind] | done].
    intros Hall Hk Hact. eapply IH; [done | | done].
    by eapply put_active_stays.
Qed.

End merge_more.

(** Every row of the merged mapping was put, and sits under its key. *)
Lemma merge_lookup_inv (iiia_rows iv_rows pc_rows : list MappingRow)
    (merged : gmap map_key MappingRow) (k : map_key) (r : MappingRow) :
  merge iiia_rows iv_rows pc_rows = Ok merged -> merged !! k = Some r ->
  r ∈ iiia_rows ++ iv_rows ++ pc_rows /\ row_key r = k.
Proof.
  unfold merge. intros H Hk.
  destruct (put_all ∅ iiia_rows false) as [m1|] eqn:E1; [cbn [bind] in H | done].
  destruct (put_all m1 iv_rows false) as [m2|] eqn:E2; [cbn [bind] in H | done].
  rewrite !elem_of_app.
  destruct (put_all_lookup_inv _ _ _ _ _ _ H Hk) as [H2 | [? ->]]; [|auto].
  destruct (put_all_lookup_inv _ _ _ _ _ _ E2 H2) as [H1 | [? ->]]; [|auto].
  destruct (put_all_lookup_inv _ _ _ _ _ _ E1 H1) as [H0 | [? ->]]; [|auto].
  by rewrite lookup_empty in H0.
Qed.

(** X11. A successful merge neither invents nor loses anything: every row
    of the merged mapping is one of the rows that were put and sits under
    its own key, and the key of every row that was put is present. *)
Theorem merge_rows_and_keys (iiia_rows iv_rows pc_rows : list MappingRow)
    (merged : gmap map_key MappingRow) :
  merge iiia_rows iv_rows pc_rows = Ok merged ->
  (forall k r, merged !! k = Some r ->
     r ∈ iiia_rows ++ iv_rows ++ pc_rows /\ row_key r = k)
  /\ (forall r, r ∈ iiia_rows ++ iv_rows ++ pc_rows ->
        is_Some (merged !! row_key r)).
Proof.
  intros H. split.
  - intros k r Hk. by eapply merge_lookup_inv.
  - unfold merge in H.
    destruct (put_all ∅ iiia_rows false) as [m1|] eqn:E1; [cbn [bind] in H | done].
    destruct (put_all m1 iv_rows false) as [m2|] eqn:E2; [cbn [bind] in H | done].
    intros r. rewrite !elem_of_app. intros [Hr | [Hr | Hr]].
    + eapply put_all_keeps_keys; [exact H|].
      eapply put_all_keeps_keys; [exact E2|]. by eapply put_all_covers.
    + eapply put_all_keeps_keys; [exact H|]. by eapply put_all_covers.
    + by eapply put_all_covers.
Qed.

Lemma merge_rows_and_keys_witness :
  exists merged,
    merge [sample_wildcard] [sample_pending; sample_active] [sample_override]
    = Ok merged
    /\ is_Some (merged !! row_key sample_pending)
    /\ forall k r, merged !! k = Some r -> row_key r = k.
Proof.
  assert (is_ok (merge [sample_wildcard] [sample_pending; sample_active]
                   [sample_override])) as [merged E]%is_ok_inv
    by (vm_compute; exact I).
  destruct (merge_rows_and_keys _ _ _ _ E) as [Hin Hcov].
  exists merged. split; [done|]. split.
  - apply Hcov. right. left.
  - intros k r Hk. by destruct (Hin k r Hk).
Defined.

(** X12. Without force an active row is never displaced: whatever rows are
    put after it, as long as the puts succeed, the key keeps that row, and
    every active row that was put under the key agrees with it on the
    expected match. *)
Theorem active_row_stays (mapping mapping' : gmap map_key MappingRow)
    (rows : list MappingRow) (k : map_key) (existing : MappingRow) :
  put_all mapping rows false = Ok mapping' ->
  mapping !! k = Some existing -> status existing = "active" ->
  mapping' !! k = Some existing
  /\ forall r, r ∈ rows -> row_key r = k -> status r = "active" ->
       expected_match_candidate r = expected_match_candidate existing.
Proof.
  intros Hall Hk Hact. split; [by eapply put_all_active_stays|].
  revert mapping Hall Hk. induction rows as [|r0 rows IH]; intros mapping Hall Hk.
  { by intros r ?%elem_of_nil. }
  rewrite put_all_cons in Hall.
  destruct (put mapping r0 false) as [m1|] eqn:E; [cbn [bind] in Hall | done].
  intros r [-> | Hr]%elem_of_cons Hkey Ha.
  - subst k.
    destruct (put_spec mapping r0)
      as [[Hn _] | [(ex & Hex & Hp & _) | [(ex & _ & _ & _ & _ & H)
          | (ex & Hex & _ & Hm & _)]]]; try congruence.
    assert (ex = existing) as -> by congruence. symmetry. auto.
  - apply (IH m1); [done | | done..]. by eapply put_active_stays.
Qed.

Lemma active_row_stays_witness :
  exists mapping',
    put_all {[ row_key sample_active := sample_active ]}
      [sample_pending; sample_active_variant] false = Ok mapping'
    /\ mapping' !! row_key sample_active = Some sample_active.
Proof.
  assert (is_ok (put_all {[ row_key sample_active := sample_active ]}
                   [sample_pending; sample_active_variant] false))
    as [mapping' E]%is_ok_inv by (vm_compute; exact I).
  exists mapping'. split; [done|].
  apply (active_row_stays _ _ _ _ _ E); reflexivity.
Defined.

Section merge_winner.

Implicit Types (mapping : gmap map_key MappingRow) (row existing : MappingRow)
  (rows : list MappingRow) (k : map_key).

Lemma first_with_key_cons k row rows :
  first_with_key k (row :: rows)
  = if bool_decide (row_key row = k) then Some row else first_with_key k rows.
Proof.
  unfold first_with_key. rewrite filter_cons.
  destruct (decide (row_key row = k)) as [H|H].
  - by rewrite bool_decide_eq_true_2.
  - by rewrite bool_decide_eq_false_2.
Qed.

Lemma first_active_with_key_cons k row rows :
  first_active_with_key k (row :: rows)
  = if bool_decide (row_key row = k) && bool_decide (status row = "active")
    then Some row else first_active_with_key k rows.
Proof.
  unfold first_active_with_key. rewrite filter_cons.
  destruct (decide (row_key row = k /\ status row = "active")) as [[H1 H2]|H].
  - by rewrite !bool_decide_eq_true_2.
  - destruct (decide (row_key row = k)) as [H1|H1].
    + rewrite (bool_decide_eq_false_2 (status row = "active")) by tauto.
      by rewrite andb_false_r.
    + by rewrite (bool_decide_eq_false_2 (row_key row = k)).
Qed.

Lemma winner_cons_other k row rows :
  row_key row <> k -> winner k (row :: rows) = winner k rows.
Proof.
  intros H. unfold winner.
  rewrite first_with_key_cons, first_active_with_key_cons.
  by rewrite bool_decide_eq_false_2.
Qed.

(** What the loop without force leaves under each key, from any mapping. *)
Lemma put_all_lookup mapping rows mapping' k :
  put_all mapping rows false = Ok mapping' ->
  mapping' !! k =
  match mapping !! k with
  | Some existing =>
      if bool_decide (status existing = "pending")
      then Some (default existing (first_active_with_key k rows))
      else Some existing
  | None => winner k rows
  end.
Proof.
  revert mapping. induction rows as [|r rows IH]; intros mapping.
  - intros [= <-]. destruct (mapping !! k) as [ex|]; [|done].
    by destruct (bool_decide _).
  - rewrite put_all_cons.
    destruct (put mapping r false) as [m1|] eqn:E; [cbn [bind] | done].
    intros Hall. rewrite (IH _ Hall). clear IH Hall.
    destruct (decide (row_key r = k)) as [<- | Hne].
    2: { rewrite (put_other_key _ _ _ _ _ E) by done.
         rewrite winner_cons_other by done.
         rewrite first_active_with_key_cons.
         by rewrite (bool_decide_eq_false_2 (row_key r = k)). }
    unfold winner. rewrite first_with_key_cons, !first_active_with_key_cons.
    rewrite !(bool_decide_eq_true_2 (row_key r = row_key r)) by done. cbn [andb].
    destruct (put_spec mapping r)
      as [[Hn H] | [(ex & Hex & Hp & Ha & H) | [(ex & _ & _ & _ & _ & H)
          | (ex & Hex & Hnot & _ & H)]]];
      rewrite H in E; try discriminate; injection E as <-.
    + rewrite lookup_insert_eq, Hn. repeat case_bool_decide; cbn; congruence.
    + rewrite lookup_insert_eq, Hex. repeat case_bool_decide; cbn; congruence.
    + rewrite Hex. repeat case_bool_decide; cbn; try congruence; tauto.
Qed.

End merge_winner.

(** X13. What the loops without force decide. Starting from the empty
    mapping, a key ends with the first row that was put under it, unless
    that row is pending and an active row of the key comes later: then it
    ends with the first such active row. *)
Theorem merge_first_active_wins (rows : list MappingRow)
    (mapping : gmap map_key MappingRow) (k : map_key) :
  put_all ∅ rows false = Ok mapping ->
  mapping !! k = winner k rows.
Proof.
  intros H. rewrite (put_all_lookup _ _ _ k H). by rewrite lookup_empty.
Qed.

Lemma merge_first_active_wins_witness :
  exists mapping,
    put_all ∅ [sample_pending; sample_wildcard; sample_active; sample_active_variant]
      false = Ok mapping
    /\ mapping !! row_key sample_pending = Some sample_active.
Proof.
  assert (is_ok (put_all ∅ [sample_pending; sample_wildcard; sample_active;
                            sample_active_variant] false))
    as [mapping E]%is_ok_inv by (vm_compute; exact I).
  exists mapping. split; [done|].
  rewrite (merge_first_active_wins _ _ (row_key sample_pending) E).
  vm_compute. reflexivity.
Defined.

Section merge_conflicts.

Implicit Types (mapping : gmap map_key MappingRow) (row existing : MappingRow)
  (rows : list MappingRow) (k : map_key).

Lemma not_conflicting_agree (r1 r2 : MappingRow) :
  ~ conflicting r1 r2 -> row_key r1 = row_key r2 ->
  status r1 = "active" -> status r2 = "active" ->
  expected_match_candidate r1 = expected_match_candidate r2.
Proof.
  intros Hn Hk H1 H2.
  destruct (decide (expected_match_candidate r1 = expected_match_candidate r2));
    [done|]. by destruct Hn.
Qed.

(** Rows that agree with the active rows of the mapping and among
    themselves are all put without an exception. *)
Lemma put_all_compatible_ok mapping rows :
  (forall r ex, r ∈ rows -> mapping !! row_key r = Some ex ->
     status ex = "active" -> status r = "active" ->
     expected_match_candidate ex = expected_match_candidate r) ->
  (forall r1 r2, r1 ∈ rows -> r2 ∈ rows -> ~ conflicting r1 r2) ->
  is_ok (put_all mapping rows false).
Proof.
  revert mapping. induction rows as [|r rows IH]; intros mapping Hmap Hpair; [done|].
  rewrite put_all_cons.
  assert (exists m1, put mapping r false = Ok m1) as [m1 E].
  { destruct (put_spec mapping r)
      as [[_ H] | [(ex & _ & _ & _ & H) | [(ex & Hex & He & Ha & Hm & _)
          | (ex & _ & _ & _ & H)]]]; eauto.
    destruct Hm. apply (Hmap r ex); [left | done..]. }
  rewrite E. cbn [bind]. apply IH.
  - intros r' ex' Hr' Hex' He' Ha'.
    destruct (put_lookup_inv _ _ _ _ _ _ E Hex') as [H0 | [-> Hk]].
    + apply (Hmap r' ex'); [by right | done..].
    + apply not_conflicting_agree; [|done..]. apply Hpair; [left | by right].
  - intros r1 r2 H1 H2. apply Hpair; by right.
Qed.

(** After the put of an active row its key holds an active row with the
    same expected match, provided the statuses in the mapping are the two
    known ones. *)
Lemma put_active_settles mapping r m1 :
  (forall k ex, mapping !! k = Some ex ->
     status ex = "pending" \/ status ex = "active") ->
  put mapping r false = Ok m1 -> status r = "active" ->
  exists x, m1 !! row_key r = Some x /\ status x = "active"
            /\ expected_match_candidate x = expected_match_candidate r.
Proof.
  intros Hknown E Ha.
  destruct (put_spec mapping r)
    as [[_ H] | [(ex & _ & _ & _ & H) | [(ex & _ & _ & _ & _ & H)
        | (ex & Hex & Hnot & Hm & H)]]];
    rewrite H in E; try discriminate; injection E as <-.
  - exists r. by rewrite lookup_insert_eq.
  - exists r. by rewrite lookup_insert_eq.
  - exists ex. destruct (Hknown _ _ Hex) as [Hp | He]; [tauto|]. auto.
Qed.

(** Conversely, rows with known statuses that were all put agree with the
    active rows of the mapping and among themselves. *)
Lemma put_all_ok_compatible mapping rows mapping' :
  (forall k ex, mapping !! k = Some ex ->
     status ex = "pending" \/ status ex = "active") ->
  Forall (fun r => status r = "pending" \/ status r = "active") rows ->
  put_all mapping rows false = Ok mapping' ->
  (forall r ex, r ∈ rows -> mapping !! row_key r = Some ex ->
     status ex = "active" -> status r = "active" ->
     expected_match_candidate ex = expected_match_candidate r)
  /\ (forall r1 r2, r1 ∈ rows -> r2 ∈ rows -> ~ conflicting r1 r2).
Proof.
  intros Hknown Hrows. revert mapping Hknown.
  induction Hrows as [|r rows Hr Hrows IH]; intros mapping Hknown Hall.
  { split; [by intros r ex ?%elem_of_nil | by intros r1 r2 ?%elem_of_nil]. }
  rewrite put_all_cons in Hall.
  destruct (put mapping r false) as [m1|] eqn:E; [cbn [bind] in Hall | done].
  assert (forall k ex, m1 !! k = Some ex ->
            status ex = "pending" \/ status ex = "active") as Hknown1.
  { intros k ex Hex.
    destruct (put_lookup_inv _ _ _ _ _ _ E Hex) as [H0 | [-> _]]; eauto. }
  destruct (IH m1 Hknown1 Hall) as [IH1 IH2].
  assert (forall r', r' ∈ rows -> row_key r = row_key r' ->
            status r = "active" -> status r' = "active" ->
            expected_match_candidate r = expected_match_candidate r') as Hhead.
  { intros r' Hr' Hk Ha Ha'.
    destruct (put_active_settles _ _ _ Hknown E Ha) as (x & Hx & Hxa & <-).
    apply (IH1 r' x); [done | by rewrite <- Hk | done..]. }
  split.
  - intros r' ex [-> | Hr']%elem_of_cons Hex He Ha.
    + destruct (put_spec mapping r)
        as [[Hn _] | [(ex' & Hex' & Hp & _) | [(ex' & _ & _ & _ & _ & H)
            | (ex' & Hex' & _ & Hm & _)]]]; try congruence.
      assert (ex' = ex) as -> by congruence. auto.
    + apply (IH1 r' ex); [done | | done..].
      by eapply put_active_stays.
  - intros r1 r2 [-> | H1]%elem_of_cons [-> | H2]%elem_of_cons
      (Hk & Ha1 & Ha2 & Hne).
    + done.
    + by destruct Hne; apply Hhead.
    + destruct Hne. symmetry. by apply Hhead.
    + by apply (IH2 r1 r2).
Qed.

(** A loop of puts raises nothing but the conflict of a key. *)
Lemma put_all_raise mapping rows (force : bool) e :
  put_all mapping rows force = Raise e -> exists k, e = ConflictingActive k.
Proof.
  revert mapping. induction rows as [|r rows IH]; intros mapping; [done|].
  rewrite put_all_cons. destruct (put mapping r force) as [m1|] eqn:E; cbn [bind].
  - apply IH.
  - intros [= <-]. destruct force; [by rewrite put_force in E|].
    destruct (put_spec mapping r)
      as [[_ H] | [(ex & _ & _ & _ & H) | [(ex & _ & _ & _ & _ & H)
          | (ex & _ & _ & _ & H)]]]; rewrite H in E; try discriminate.
    injection E as <-. eauto.
Qed.

End merge_conflicts.

(** X14. When the rows of the two stage maps are pending or active, the
    merge succeeds exactly when no two active rows of one key among them
    disagree on the expected match; the override rows never make it fail.
    The only exception of the merge is the conflict of a key. *)
Theorem merge_succeeds_iff (iiia_rows iv_rows pc_rows : list MappingRow) :
  Forall (fun r => status r = "pending" \/ status r = "active")
    (iiia_rows ++ iv_rows) ->
  (is_ok (merge iiia_rows iv_rows pc_rows) <->
     forall r1 r2, r1 ∈ iiia_rows ++ iv_rows -> r2 ∈ iiia_rows ++ iv_rows ->
                   ~ conflicting r1 r2)
  /\ (forall e, merge iiia_rows iv_rows pc_rows = Raise e ->
        exists k, e = ConflictingActive k).
Proof.
  intros Hknown.
  assert (merge iiia_rows iv_rows pc_rows
          = let* m2 := put_all ∅ (iiia_rows ++ iv_rows) false in
            put_all m2 pc_rows true) as ->.
  { unfold merge. rewrite put_all_app.
    by destruct (put_all ∅ iiia_rows false). }
  split; [split|].
  - destruct (put_all ∅ (iiia_rows ++ iv_rows) false) as [m2|] eqn:E; [|done].
    intros _. eapply put_all_ok_compatible; [|exact Hknown|exact E].
    intros k ex H. by rewrite lookup_empty in H.
  - intros Hpair.
    assert (is_ok (put_all ∅ (iiia_rows ++ iv_rows) false)) as [m2 E]%is_ok_inv.
    { apply put_all_compatible_ok; [|exact Hpair].
      intros r ex _ H. by rewrite lookup_empty in H. }
    rewrite E. cbn [bind].
    destruct (put_all_force m2 pc_rows) as (m3 & -> & _). exact I.
  - intros e.
    destruct (put_all ∅ (iiia_rows ++ iv_rows) false) as [m2|] eqn:E; cbn [bind].
    + apply put_all_raise.
    + intros [= <-]. by eapply put_all_raise.
Qed.

Lemma merge_succeeds_iff_witness :
  is_ok (merge [sample_wildcard; sample_active] [sample_pending; sample_active_variant]
           [sample_override])
  /\ ~ is_ok (merge [sample_active] [sample_conflicting] [sample_override]).
Proof.
  assert (Forall (fun r => status r = "pending" \/ status r = "active")
            ([sample_wildcard; sample_active]
               ++ [sample_pending; sample_active_variant])) as K1.
  { repeat constructor; (by left) || (by right). }
  assert (Forall (fun r => status r = "pending" \/ status r = "active")
            ([sample_active] ++ [sample_conflicting])) as K2.
  { repeat constructor; by right. }
  destruct (proj1 (merge_succeeds_iff _ _ [sample_override] K1)) as [_ Hback].
  destruct (proj1 (merge_succeeds_iff _ _ [sample_override] K2)) as [Hfwd _].
  split.
  - apply Hback. intros r1 r2 H1 H2 (Hk & Ha1 & Ha2 & Hne).
    cbn [app] in H1, H2.
    repeat (apply elem_of_cons in H1 as [-> | H1]);
      try (by apply elem_of_nil in H1);
      repeat (apply elem_of_cons in H2 as [-> | H2]);
      try (by apply elem_of_nil in H2);
      first [discriminate Hk | discriminate Ha1 | discriminate Ha2
            | by destruct Hne].
  - intros Hok. apply (Hfwd Hok sample_active sample_conflicting);
      [left | right; left |].
    repeat split; discriminate.
Defined.

(** ** From the documents to the merged mapping *)

(** X15. The mapping that [main] builds from two stage maps and the
    override fragments: every row sits under its own key and is a pending
    placeholder or an active row with the two candidate ids; a row either
    carries the override flag, and then it is an active Node03 row of the
    override file, or it carries none, and then it comes from one of the
    two stage maps, scoped to one of the two nodes or to the wildcard. *)
Theorem main_mapping_ok
    (iiia_jobs : list job) (iiia_file iiia_sha : string)
    (iv_jobs : list job) (iv_file iv_sha : string)
    (frags : list (gmap string pyval)) (pc_file pc_sha : string)
    (merged : gmap map_key MappingRow) :
  main_mapping iiia_jobs iiia_file iiia_sha iv_jobs iv_file iv_sha
    frags pc_file pc_sha = Ok merged ->
  mapping_ok merged
  /\ forall k row, merged !! k = Some row ->
       (map_manual_override_flag row = Some 1%Z
        /\ status row = "active" /\ node_scope row = "Node03_HVT_A_COMPLETED"
        /\ map_source_file row = pc_file /\ map_source_sha256 row = pc_sha)
       \/ (map_manual_override_flag row = None
           /\ node_scope row
              ∈ ["Node02_HVT_A_COMPLETED"; "Node03_HVT_A_COMPLETED"; "ALL"]
           /\ ((map_source_file row = iiia_file /\ map_source_sha256 row = iiia_sha)
               \/ (map_source_file row = iv_file /\ map_source_sha256 row = iv_sha))).
Proof.
  unfold main_mapping, mapping_ok. intros H.
  destruct (flatten_map iiia_jobs iiia_file iiia_sha) as [iiia_rows|] eqn:E1;
    [cbn [bind] in H | done].
  destruct (flatten_map iv_jobs iv_file iv_sha) as [iv_rows|] eqn:E2;
    [cbn [bind] in H | done].
  destruct (parse_pc_override_fragments frags pc_file pc_sha) as [pc_rows|] eqn:E3;
    [cbn [bind] in H | done].
  apply flatten_map_inv in E1 as [E1 _]. apply flatten_map_inv in E2 as [E2 _].
  apply parse_pc_rows_inv in E3 as [_ E3].
  pose proof (fun k r => merge_lookup_inv _ _ _ _ k r H) as Hin.
  assert (forall k row, merged !! k = Some row ->
            row_key row = k /\ row_ok row
            /\ ((map_manual_override_flag row = Some 1%Z
                 /\ status row = "active"
                 /\ node_scope row = "Node03_HVT_A_COMPLETED"
                 /\ map_source_file row = pc_file /\ map_source_sha256 row = pc_sha)
                \/ (map_manual_override_flag row = None
                    /\ node_scope row
                       ∈ ["Node02_HVT_A_COMPLETED"; "Node03_HVT_A_COMPLETED"; "ALL"]
                    /\ ((map_source_file row = iiia_file
                         /\ map_source_sha256 row = iiia_sha)
                        \/ (map_source_file row = iv_file
                            /\ map_source_sha256 row = iv_sha))))) as Hall.
  { intros k row Hk. destruct (Hin k row Hk) as [Hrow Hkey]. split; [done|].
    rewrite !elem_of_app in Hrow. destruct Hrow as [Hr | [Hr | Hr]].
    - destruct (E1 row Hr) as (Hok & Hf & Hs & Hflag & _ & Hscope).
      split; [done|]. right. auto.
    - destruct (E2 row Hr) as (Hok & Hf & Hs & Hflag & _ & Hscope).
      split; [done|]. right. auto 10.
    - destruct (E3 row Hr) as (Hok & Hst & Hscope & _ & Hflag & Hf & Hs).
      split; [done|]. left. auto. }
  split.
  - intros k row Hk. destruct (Hall k row Hk) as (? & ? & _). auto.
  - intros k row Hk. by destruct (Hall k row Hk) as (_ & _ & ?).
Qed.

Lemma main_mapping_ok_witness :
  exists merged,
    main_mapping sample_stage_iv "maps/stage_iiia.md" "bb22"
      sample_stage_iv "maps/stage_iv.md" "aa11"
      [sample_fragment] "maps/run029_pc.md" "cc33" = Ok merged
    /\ mapping_ok merged.
Proof.
  assert (is_ok (main_mapping sample_stage_iv "maps/stage_iiia.md" "bb22"
                   sample_stage_iv "maps/stage_iv.md" "aa11"
                   [sample_fragment] "maps/run029_pc.md" "cc33"))
    as [merged E]%is_ok_inv by (vm_compute; exact I).
  exists merged. split; [done|].
  by destruct (main_mapping_ok _ _ _ _ _ _ _ _ _ _ E).
Defined.

(** ** More about the reconciler *)

Section reconciler_more.

Implicit Types (mapping : gmap map_key MappingRow)
  (r : gmap string (option string)) (m : MappingRow).

Lemma matched_or_unmatched mapping r :
  (exists m, resolves_to mapping r m /\ status m = "active") \/ unmatched mapping r.
Proof.
  destruct (reconcile_row mapping r) as [[k|merged]|] eqn:E.
  - right. by apply reconcile_row_inl in E as [? _].
  - left. apply reconcile_row_inr in E as (m & ? & ? & _). eauto.
  - by rewrite reconcile_row_eq in E.
Qed.

Lemma remove_dups_length_le {A} `{EqDecision A} (l : list A) :
  length (remove_dups l) <= length l.
Proof.
  induction l as [|x l IH]; [done|]. cbn [remove_dups].
  destruct (decide_rel _ x l); simpl; lia.
Qed.

Lemma sorted_set_length (l : list comp_key) :
  length (sorted_set l) <= length l
  /\ (l <> [] -> 1 <= length (sorted_set l)).
Proof.
  unfold sorted_set. rewrite merge_sort_Permutation. split.
  - apply remove_dups_length_le.
  - intros Hne. destruct l as [|k l]; [done|].
    assert (k ∈ remove_dups (k :: l)) as Hk by (apply elem_of_remove_dups; left).
    destruct (remove_dups (k :: l)); [by apply elem_of_nil in Hk | simpl; lia].
Qed.

(** Every comparison row ends in exactly one of the two lists. *)
Lemma reconcile_loop_lengths mapping (recs : list (gmap string (option string)))
    (out out' : list (gmap string pyval)) (miss miss' : list comp_key) :
  reconcile_loop mapping recs out miss = Ok (out', miss') ->
  length out' + length miss' = length out + length miss + length recs.
Proof.
  revert out miss. induction recs as [|r recs IH]; intros out miss.
  - intros [= <- <-]. simpl. lia.
  - cbn [reconcile_loop].
    destruct (reconcile_row mapping r) as [[k|merged]|]; cbn [bind]; [| |done];
      intros H; apply IH in H; rewrite length_app in H; simpl in *; lia.
Qed.

End reconciler_more.

(** X16. The reconciliation is all or nothing. It ends with exit status 2
    exactly for an empty comparisons file; when it hands over rows, every
    comparison row had an active mapping and the rows are the enrichments
    of the comparison rows, one for one and in order; and the only exception
    it raises is the one for missing mappings, with a count between one and
    the number of comparison rows and with at most eight example keys. *)
Theorem reconcile_all_or_nothing (mapping : gmap map_key MappingRow)
    (comp_rows : list (gmap string (option string))) :
  (reconcile mapping comp_rows = Ok Exit2 <-> comp_rows = [])
  /\ (forall out_rows,
        reconcile mapping comp_rows = Ok (Reconciled out_rows) ->
        comp_rows <> []
        /\ Forall2 (fun r merged =>
                      exists m, resolves_to mapping r m /\ status m = "active"
                                /\ merged = enrich r (candidate_label_of r) m)
             comp_rows out_rows)
  /\ (forall e,
        reconcile mapping comp_rows = Raise e ->
        exists count example,
          e = MissingMappings count example
          /\ 1 <= count <= length comp_rows
          /\ length example = min 8 count
          /\ exists r, r ∈ comp_rows /\ unmatched mapping r).
Proof.
  destruct comp_rows as [|r0 rest].
  { split; [done|]. split; [intros out_rows [=] | intros e [=]]. }
  set (recs := r0 :: rest).
  destruct (reconcile_loop_spec mapping recs [] []) as (outs & misses & Hloop & Hm).
  cbn [app] in Hloop.
  assert (reconcile mapping recs
          = match misses with
            | [] => Ok (Reconciled outs)
            | _ => Raise (MissingMappings (length (sorted_set misses))
                            (take 8 (sorted_set misses)))
            end) as ->.
  { unfold reconcile, recs. fold recs. by rewrite Hloop. }
  split; [|split].
  - split; [|done]. by destruct misses.
  - intros out_rows H. destruct misses as [|k misses]; [|done].
    injection H as <-. split; [done|].
    assert (Forall (fun r => exists m, resolves_to mapping r m /\ status m = "active")
              recs) as Hall.
    { apply Forall_forall. intros r Hr.
      destruct (matched_or_unmatched mapping r) as [H | Hun]; [done|].
      assert (key_of r ∈ []) as Hk by (apply Hm; eauto).
      by apply elem_of_nil in Hk. }
    destruct (reconcile_loop_complete mapping recs [] [] Hall) as (outs' & Hloop' & Hf).
    cbn [app] in Hloop'. by assert (outs' = outs) as -> by congruence.
  - intros e H. destruct misses as [|k misses]; [done|]. injection H as <-.
    eexists _, _. split; [done|].
    destruct (sorted_set_length (k :: misses)) as [Hle Hge].
    apply reconcile_loop_lengths in Hloop. simpl in Hloop.
    split; [|split].
    + specialize (Hge ltac:(done)). subst recs. cbn [length] in *. lia.
    + by rewrite length_take.
    + destruct (proj1 (Hm k)) as (r & Hr & Hun & _); [left|]. eauto.
Qed.

Lemma reconcile_all_or_nothing_witness :
  exists out_rows,
    reconcile sample_mapping [sample_comparison; sample_comparison_node02]
    = Ok (Reconciled out_rows)
    /\ length out_rows = 2.
Proof.
  assert (match reconcile sample_mapping
                  [sample_comparison; sample_comparison_node02] with
          | Ok (Reconciled _) => True
          | _ => False
          end) as Hrun by (vm_compute; exact I).
  destruct (reconcile sample_mapping [sample_comparison; sample_comparison_node02])
    as [[|out_rows]|] eqn:E; try done.
  exists out_rows. split; [done|].
  destruct (proj1 (proj2 (reconcile_all_or_nothing sample_mapping
                            [sample_comparison; sample_comparison_node02]))
              out_rows E) as [_ Hf].
  symmetry. exact (Forall2_length _ _ _ Hf).
Defined.

Section enrichment_more.

Implicit Types (mapping : gmap map_key MappingRow)
  (r : gmap string (option string)) (m : MappingRow).

Lemma int_of_bool_cases (P : Prop) `{Decision P} :
  (int_of_bool (bool_decide P) = 1%Z /\ P)
  \/ (int_of_bool (bool_decide P) = 0%Z /\ ~ P).
Proof. case_bool_decide; [left | right]; done. Qed.

(** A comparison key carries a stripped arm, so only a row whose arm is a
    stripped string can sit under it. *)
Lemma key_arm_stripped mapping r m :
  (forall k row, mapping !! k = Some row -> row_key row = k) ->
  resolves_to mapping r m ->
  exists a, arm m = PStr a /\ strip a = a
            /\ group m = norm_group_str (field r "group")
            /\ (node_scope m = field r "node_id" \/ node_scope m = "ALL").
Proof.
  intros Hkeyed Hres.
  assert (strip (field r "arm") = field r "arm") as Harm.
  { unfold field. destruct (r !! "arm") as [[s|]|]; [apply strip_idem | done..]. }
  destruct Hres as [H | [_ H]]; apply Hkeyed in H;
    unfold row_key, key_node_of, key_all_of in H; injection H as Hs Hg Ha;
    exists (field r "arm"); auto.
Qed.

End enrichment_more.

(** X17. The flags of an enriched row, for a mapping whose rows have the
    shape of the data model. The row states status active and the two
    candidate ids; the match flag is 1 exactly when the candidate label of
    the comparison row is the expected match, the mismatch flag exactly when
    it is the expected mismatch; the two flags are never both 1, and one of
    them is 1 when the label is one of the two candidate ids; the
    correctness flag is 1 exactly when a PASS outcome goes with the expected
    match and any other outcome with another label. *)
Theorem enriched_flags (mapping : gmap map_key MappingRow)
    (r : gmap string (option string)) (merged : gmap string pyval) :
  mapping_ok mapping ->
  reconcile_row mapping r = Ok (inr merged) ->
  exists (em emm : string) (a b c : Z),
    candidate_pair em emm
    /\ merged !! "blinding_map_status" = Some (PStr "active")
    /\ merged !! "expected_match_candidate" = Some (PStr em)
    /\ merged !! "expected_mismatch_candidate" = Some (PStr emm)
    /\ merged !! "is_expected_match_candidate" = Some (PInt a)
    /\ merged !! "is_expected_mismatch_candidate" = Some (PInt b)
    /\ merged !! "classification_correct" = Some (PInt c)
    /\ ((a = 1 /\ candidate_label_of r = em) \/ (a = 0 /\ candidate_label_of r <> em))%Z
    /\ ((b = 1 /\ candidate_label_of r = emm)
        \/ (b = 0 /\ candidate_label_of r <> emm))%Z
    /\ (a + b <= 1)%Z
    /\ (candidate_label_of r = "QMSv5_01" \/ candidate_label_of r = "QMSv5_02" ->
        (a + b = 1)%Z)
    /\ ((c = 1 /\ (r !! "pass_fail" = Some (Some "PASS") <-> candidate_label_of r = em))
        \/ (c = 0 /\ ~ (r !! "pass_fail" = Some (Some "PASS")
                        <-> candidate_label_of r = em)))%Z.
Proof.
  intros Hok (m & Hres & Hact & ->)%reconcile_row_inr.
  assert (candidate_pair (expected_match_candidate m)
            (expected_mismatch_candidate m)) as Hpair.
  { assert (row_ok m) as [[Hp _] | [_ Hpair]]; [|congruence|done].
    destruct Hres as [H | [_ H]]; by apply Hok in H as [_ ?]. }
  set (label := candidate_label_of r).
  exists (expected_match_candidate m), (expected_mismatch_candidate m),
    (int_of_bool (bool_decide (label = expected_match_candidate m))),
    (int_of_bool (bool_decide (label = expected_mismatch_candidate m))),
    (int_of_bool (bool_decide
       (int_of_bool (bool_decide (r !! "pass_fail" = Some (Some "PASS")))
        = int_of_bool (bool_decide (label = expected_match_candidate m))))).
  split; [exact Hpair|].
  split. { rewrite <- Hact. apply enrich_field. find_blinding_field. }
  split. { apply enrich_field. find_blinding_field. }
  split. { apply enrich_field. find_blinding_field. }
  split. { apply enrich_field. find_blinding_field. }
  split. { apply enrich_field. find_blinding_field. }
  split. { apply enrich_field. find_blinding_field. }
  destruct (int_of_bool_cases (label = expected_match_candidate m)) as [[-> Ha] | [-> Ha]],
    (int_of_bool_cases (label = expected_mismatch_candidate m)) as [[-> Hb] | [-> Hb]],
    (int_of_bool_cases (r !! "pass_fail" = Some (Some "PASS"))) as [[-> Hp] | [-> Hp]];
    destruct Hpair as [[Hm Hmm] | [Hm Hmm]];
    repeat split; try (by left); try (by right); try lia;
    try (intros [? | ?]; congruence); try congruence;
    try (rewrite bool_decide_eq_true_2 by done; left; split; [done | tauto]);
    try (rewrite bool_decide_eq_false_2 by done; right; split; [done | tauto]).
Qed.

Lemma sample_mapping_ok : mapping_ok sample_mapping.
Proof.
  intros k row Hk. unfold sample_mapping in Hk.
  apply lookup_insert_Some in Hk as [[<- <-] | [_ Hk]].
  - split; [done|]. right. split; [done|]. by left.
  - apply lookup_singleton_Some in Hk as [<- <-].
    split; [done|]. right. split; [done|]. by left.
Qed.

Lemma enriched_flags_witness :
  exists (em emm : string) (a b : Z),
    candidate_pair em emm
    /\ enrich sample_comparison (candidate_label_of sample_comparison) sample_active
         !! "is_expected_match_candidate" = Some (PInt a)
    /\ enrich sample_comparison (candidate_label_of sample_comparison) sample_active
         !! "is_expected_mismatch_candidate" = Some (PInt b)
    /\ (a + b <= 1)%Z.
Proof.
  assert (reconcile_row sample_mapping sample_comparison
          = Ok (inr (enrich sample_comparison
                       (candidate_label_of sample_comparison) sample_active))) as Hrow.
  { apply reconcile_row_matched; [left; vm_compute|]; reflexivity. }
  destruct (enriched_flags _ _ _ sample_mapping_ok Hrow)
    as (em & emm & a & b & c & Hpair & _ & _ & _ & Ha & Hb & _ & _ & _ & Hle & _).
  exists em, emm, a, b. auto.
Defined.

(** X18. An override reaches the comparisons. After a successful merge in
    which the override rows are active and flagged, a comparison row whose
    own key is the key of an override row is matched, by an override row of
    that key, and its enriched row shows the override flag 1. *)
Theorem override_reaches_comparison
    (iiia_rows iv_rows pc_rows : list MappingRow)
    (merged : gmap map_key MappingRow)
    (override : MappingRow) (c : gmap string (option string)) :
  merge iiia_rows iv_rows pc_rows = Ok merged ->
  (forall r, r ∈ pc_rows ->
     status r = "active" /\ map_manual_override_flag r = Some 1%Z) ->
  override ∈ pc_rows ->
  key_node_of c = row_key override ->
  exists r' enriched,
    r' ∈ pc_rows /\ row_key r' = row_key override
    /\ reconcile_row merged c = Ok (inr enriched)
    /\ enriched = enrich c (candidate_label_of c) r'
    /\ enriched !! "blinding_map_manual_override_flag" = Some (PInt 1)
    /\ enriched !! "blinding_map_job_id" = Some (PStr (map_job_id r')).
Proof.
  intros Hmerge Hpc Hin Hkey.
  destruct (merge_override_last _ _ _ _ _ Hmerge Hin) as (r' & Hr' & Hk' & Hlook).
  destruct (Hpc r' Hr') as [Hact Hflag].
  exists r', (enrich c (candidate_label_of c) r').
  split; [done|]. split; [done|]. split.
  { apply reconcile_row_matched; [|done]. left. by rewrite Hkey. }
  split; [done|]. split.
  - assert (PInt 1 = PInt (default 0%Z (map_manual_override_flag r'))) as ->
      by (by rewrite Hflag).
    apply enrich_field. find_blinding_field.
  - apply enrich_field. find_blinding_field.
Qed.

Lemma override_reaches_comparison_witness :
  exists r' enriched,
    reconcile_row
      (<[row_key sample_override := sample_override]>
         {[ row_key sample_pending := sample_pending ]})
      sample_comparison = Ok (inr enriched)
    /\ enriched = enrich sample_comparison
                    (candidate_label_of sample_comparison) r'
    /\ enriched !! "blinding_map_manual_override_flag" = Some (PInt 1).
Proof.
  assert (merge [] [sample_pending] [sample_override]
          = Ok (<[row_key sample_override := sample_override]>
                  {[ row_key sample_pending := sample_pending ]})) as Hmerge.
  { unfold merge. cbn [put_all bind].
    rewrite put_first by apply lookup_empty. cbn [bind].
    by rewrite put_force. }
  destruct (override_reaches_comparison [] [sample_pending] [sample_override]
              _ sample_override sample_comparison Hmerge)
    as (r' & enriched & _ & _ & Hrow & He & Hflag & _).
  - intros r ->%list_elem_of_singleton. by split.
  - left.
  - vm_compute. reflexivity.
  - exists r', enriched. auto.
Defined.

(** X19. Rows that no comparison can reach. In a mapping whose rows sit
    under their own keys, a row whose arm is not a string, or is a string
    with white space around it, is never the row a comparison row resolves
    to: the arm of a comparison row is stripped, the arm of a mapping row is
    taken as the document has it. *)
Theorem unstripped_arm_unreachable (mapping : gmap map_key MappingRow)
    (row : MappingRow) :
  (forall k r, mapping !! k = Some r -> row_key r = k) ->
  (forall a, arm row = PStr a -> strip a <> a) ->
  forall c, ~ resolves_to mapping c row.
Proof.
  intros Hkeyed Harm c Hres.
  destruct (key_arm_stripped _ _ _ Hkeyed Hres) as (a & Ha & Hs & _).
  by apply (Harm a).
Qed.

Lemma unstripped_arm_unreachable_witness :
  ~ resolves_to {[ row_key sample_untrimmed := sample_untrimmed ]}
      sample_comparison sample_untrimmed.
Proof.
  apply unstripped_arm_unreachable.
  - by intros k r [<- <-]%lookup_singleton_Some.
  - intros a [= <-]. vm_compute. discriminate.
Defined.

Section output_table.

(** The rows that the reconciliation hands over, read back. *)
Lemma reconcile_reconciled_inv (mapping : gmap map_key MappingRow)
    (comp_rows : list (gmap string (option string)))
    (out_rows : list (gmap string pyval)) :
  reconcile mapping comp_rows = Ok (Reconciled out_rows) ->
  Forall2 (fun r merged =>
             exists m, resolves_to mapping r m /\ status m = "active"
                       /\ merged = enrich r (candidate_label_of r) m)
    comp_rows out_rows.
Proof.
  unfold reconcile. destruct comp_rows as [|r0 rest]; [done|].
  set (recs := r0 :: rest).
  destruct (reconcile_loop_spec mapping recs [] []) as (outs & misses & Hloop & Hm).
  cbn [app] in Hloop. rewrite Hloop. cbn [bind].
  destruct misses as [|k misses]; [|done]. intros [= <-].
  assert (Forall (fun r => exists m, resolves_to mapping r m /\ status m = "active")
            recs) as Hall.
  { apply Forall_forall. intros r Hr.
    destruct (matched_or_unmatched mapping r) as [H | Hun]; [done|].
    assert (key_of r ∈ []) as Hk by (apply Hm; eauto).
    by apply elem_of_nil in Hk. }
  destruct (reconcile_loop_complete mapping recs [] [] Hall) as (outs' & Hloop' & Hf).
  cbn [app] in Hloop'. by assert (outs' = outs) as -> by congruence.
Qed.

End output_table.

(** X20. The written table keeps the comparisons. When the table of
    [hvtA_comparisons__WITH_BLINDING.csv] is written, its header is the
    header of the comparisons file followed by the fourteen added columns,
    it has one line per comparison row, each line has one cell per column,
    and under every original column whose name is not an added one the cell
    is the value of the comparison row, or the empty string when the row has
    no such column. *)
Theorem with_blinding_table_keeps_comparisons
    (mapping : gmap map_key MappingRow) (orig_fields : list string)
    (comp_rows : list (gmap string (option string)))
    (header : list string) (body : list (list pyval)) :
  with_blinding_table mapping orig_fields comp_rows = Ok (Some (header, body)) ->
  header = orig_fields ++ new_fields
  /\ length body = length comp_rows
  /\ forall i r cells,
       comp_rows !! i = Some r -> body !! i = Some cells ->
       length cells = length header
       /\ forall j k,
            orig_fields !! j = Some k -> k ∉ new_fields ->
            cells !! j = Some (default (PStr "") (cell_value <$> r !! k)).
Proof.
  unfold with_blinding_table.
  destruct (reconcile mapping comp_rows) as [[|out_rows]|] eqn:E; [done| |done].
  cbn [bind]. unfold write_csv. intros [= <- <-].
  apply reconcile_reconciled_inv in E.
  split; [done|]. split.
  { rewrite length_fmap. symmetry. by eapply Forall2_length. }
  intros i r cells Hr Hcells.
  rewrite list_lookup_fmap in Hcells.
  destruct (out_rows !! i) as [merged|] eqn:Hi; [|done].
  injection Hcells as <-.
  split; [by rewrite length_fmap|].
  intros j k Hj Hk.
  rewrite list_lookup_fmap, (lookup_app_l_Some _ _ _ _ Hj). cbn.
  destruct (Forall2_lookup_lr _ _ _ _ _ _ E Hr Hi) as (m & _ & _ & ->).
  unfold py_get_d. by rewrite enrich_lookup_old.
Qed.

Lemma with_blinding_table_keeps_comparisons_witness :
  exists header body,
    with_blinding_table sample_mapping sample_header [sample_comparison]
    = Ok (Some (header, body))
    /\ header = sample_header ++ new_fields
    /\ length body = 1.
Proof.
  assert (match with_blinding_table sample_mapping sample_header
                  [sample_comparison] with
          | Ok (Some _) => True
          | _ => False
          end) as Hrun by (vm_compute; exact I).
  destruct (with_blinding_table sample_mapping sample_header [sample_comparison])
    as [[[header body]|]|] eqn:E; try done.
  exists header, body. split; [done|].
  destruct (with_blinding_table_keeps_comparisons _ _ _ _ _ E) as (Hh & Hlen & _).
  by split.
Defined.

(** ** The group names *)

Section groups.

Lemma rstrip_fixed (x : string) : strip x = x -> rstrip x = x.
Proof. intros H. rewrite <- H at 1. unfold strip. by rewrite rstrip_idem. Qed.

Lemma strip_prefixed (x : string) :
  strip x = x -> strip ("IIIA_" +:+ x) = "IIIA_" +:+ x.
Proof.
  intros H. unfold strip. change ("IIIA_" +:+ x) with
    (String "I" (String "I" (String "I" (String "A" (String "_" x))))).
  rewrite lstrip_fixed by reflexivity.
  rewrite !rstrip_head by reflexivity. by rewrite rstrip_fixed.
Qed.

End groups.

(** X21. The legacy prefix is transparent. For a group name [x] without
    white space around it that does not itself begin with [IIIA_], the name
    with the prefix and the name without it normalise to [x], so a document
    and a comparisons file that differ in the prefix give the same key; and
    white space around a group name never matters. *)
Theorem norm_group_prefix (x : string) :
  strip x = x -> startswith "IIIA_" x = false ->
  norm_group (PStr ("IIIA_" +:+ x)) = Ok x
  /\ norm_group (PStr x) = Ok x
  /\ forall g, strip g = x ->
       norm_group (PStr g) = Ok x
       /\ norm_group_str (strip g) = x.
Proof.
  intros Hx Hpre.
  assert (norm_group (PStr x) = Ok x) as Hplain.
  { unfold norm_group. rewrite or_empty_strip_str. cbn [bind]. by rewrite Hx, Hpre. }
  split; [|split; [exact Hplain|]].
  - unfold norm_group. rewrite or_empty_strip_str. cbn [bind].
    rewrite (strip_prefixed _ Hx). reflexivity.
  - intros g Hg. split.
    + unfold norm_group. rewrite or_empty_strip_str. cbn [bind]. by rewrite Hg, Hpre.
    + unfold norm_group_str. by rewrite strip_idem, Hg, Hpre.
Qed.

Lemma norm_group_prefix_witness :
  norm_group (PStr ("IIIA_" +:+ "Positive_Controls")) = Ok "Positive_Controls"
  /\ norm_group (PStr "  Positive_Controls ") = Ok "Positive_Controls".
Proof.
  assert (strip "Positive_Controls" = "Positive_Controls") as Hx
    by (vm_compute; reflexivity).
  assert (startswith "IIIA_" "Positive_Controls" = false) as Hpre
    by (vm_compute; reflexivity).
  destruct (norm_group_prefix _ Hx Hpre) as (H1 & _ & H3).
  split; [exact H1|].
  assert (strip "  Positive_Controls " = "Positive_Controls") as Hg
    by (vm_compute; reflexivity).
  exact (proj1 (H3 _ Hg)).
Defined.
